(** * Snake: the game-state engine of [snake.c], embedded and verified

    The development follows the C source function by function:
    [fruits], [input], [move_snake], [check_collision], [grow_snake],
    [logic] and the loop of [main].

    - A C [int] is a [Z] in the 32-bit two's-complement range; signed
      overflow and division by zero are undefined behaviour and make the
      embedded operation fail ([None]).
    - The snake is a C array of [Point]: a [list Point] whose list length is
      the capacity of the array.  Reading or writing outside the array is
      undefined behaviour and fails as well.
    - [rand()] and [getchar()] are inputs of the model: the values returned
      by [rand()] are passed as arguments, the pending bytes of the terminal
      as a list.
    - The calls into [draw.c] only print; they do not touch the game state
      and are left out.
    - [constants.h] (WIDTH, HEIGHT, LENGTH_SNAKE) and [point.h] are not part
      of the sources at hand: the three constants are parameters, and
      [Point] is the struct of two [int] fields [x] and [y] that every use
      in [snake.c] and [draw.c] requires. *)

From stdpp Require Import base option list strings.
From Stdlib Require Import ZArith Lia Ascii.

Open Scope Z_scope.

(** ** C integers *)

Module Int.

Definition MAX : Z := 2147483647.
Definition MIN : Z := -2147483648.

Definition in_range (z : Z) : bool := (MIN <=? z) && (z <=? MAX).

(** The result of a signed operation, when it is representable. *)
Definition checked (z : Z) : option Z :=
  if in_range z then Some z else None.

Definition add (a b : Z) : option Z := checked (a + b).
Definition sub (a b : Z) : option Z := checked (a - b).

(** C's [%] truncates toward zero; a zero divisor and INT_MIN % -1 are
    undefined. *)
Definition rem (a b : Z) : option Z :=
  if b =? 0 then None
  else if (a =? MIN) && (b =? -1) then None
  else checked (Z.rem a b).

End Int.

(** Linear arithmetic with the bounds of [int] spelled out. *)
Ltac int_lia := unfold Int.MIN, Int.MAX in *; lia.

(** ** Points and arrays of points *)

Record Point : Type := mkPoint { x : Z; y : Z }.

(** [a[i]] as an rvalue. *)
Definition array_get (a : list Point) (i : Z) : option Point :=
  if i <? 0 then None else a !! Z.to_nat i.

(** [a[i] = p]. *)
Definition array_set (a : list Point) (i : Z) (p : Point) : option (list Point) :=
  if (0 <=? i) && (i <? Z.of_nat (length a))
  then Some (<[Z.to_nat i := p]> a)
  else None.

(** ** The state that [main] owns and passes by address

    [snake], [length], [gameover], [score], [fruitx] and [fruity] are
    locals of [main]; [logic] and [grow_snake] receive their addresses. *)

Record Game : Type := mkGame {
  g_snake : list Point;
  g_length : Z;
  g_gameover : Z;
  g_score : Z;
  g_fruitx : Z;
  g_fruity : Z
}.

Definition set_snake (s : list Point) (g : Game) : Game :=
  mkGame s (g_length g) (g_gameover g) (g_score g) (g_fruitx g) (g_fruity g).

Definition set_gameover (c : Z) (g : Game) : Game :=
  mkGame (g_snake g) (g_length g) c (g_score g) (g_fruitx g) (g_fruity g).

(** [rand()] returns a value between 0 and RAND_MAX, itself at most
    INT_MAX. *)
Definition rand_ok (r : Z) : Prop := 0 <= r <= Int.MAX.

(** Side conditions at concrete inputs. *)
Ltac run := first [ reflexivity | done | int_lia | unfold rand_ok; int_lia ].

Section Snake.

(** The constants of [constants.h].  WIDTH and HEIGHT are compile-time
    literals: [WIDTH-1], [HEIGHT-2], [WIDTH/2] and the like are constant
    expressions, computed in [Z]. *)
Variables WIDTH HEIGHT LENGTH_SNAKE : Z.

(** ** [fruits] *)

(** The two calls of [rand()] return [r1], then [r2]. *)
Definition fruits (r1 r2 : Z) : option (Z * Z) :=
  a ← Int.rem r1 (WIDTH - 2);
  fruitx ← Int.add a 1;
  b ← Int.rem r2 (HEIGHT - 2);
  fruity ← Int.add b 1;
  Some (fruitx, fruity).

(** ** [input] *)

Definition EOF : Z := -1.

(** [getchar()] on the non-blocking terminal: the next pending byte, or
    [EOF] when none is pending. *)
Definition getchar (stdin : list Z) : Z * list Z :=
  match stdin with
  | [] => (EOF, [])
  | c :: rest => (c, rest)
  end.

(** [input(&flag)]: returns the new value of [*flag] and the bytes left.
    27 is ESC, 91 is '[', 65..68 are 'A'..'D', 120 and 88 are 'x' and
    'X'. *)
Definition input (flag : Z) (stdin : list Z) : Z * list Z :=
  let '(ch, stdin) := getchar stdin in
  if ch =? 27 then
    let '(ch, stdin) := getchar stdin in
    if ch =? 91 then
      let '(ch, stdin) := getchar stdin in
      if ch =? 65 then ((if negb (flag =? 1) then 3 else flag), stdin)
      else if ch =? 66 then ((if negb (flag =? 3) then 1 else flag), stdin)
      else if ch =? 67 then ((if negb (flag =? 2) then 4 else flag), stdin)
      else if ch =? 68 then ((if negb (flag =? 4) then 2 else flag), stdin)
      else (flag, stdin)
    else (flag, stdin)
  else if (ch =? 120) || (ch =? 88) then (-1, stdin)
  else (flag, stdin).

(** ** [move_snake] *)

(** The loop [for (int i = 0; i < length; i++) snake[i] = snake[i+1];]
    entered at index [i] with [n] iterations left. *)
Fixpoint move_snake_loop (n : nat) (i : Z) (snake : list Point)
  : option (list Point) :=
  match n with
  | O => Some snake
  | S n' =>
      j ← Int.add i 1;
      p ← array_get snake j;
      snake' ← array_set snake i p;
      move_snake_loop n' j snake'
  end.

(** Both fields of [snake[length-1]] are assigned in every case of the
    [switch], so each case is one store of a whole [Point]. *)
Definition move_snake (snake : list Point) (len flag : Z) : option (list Point) :=
  h ← Int.sub len 1;
  temp ← array_get snake h;
  snake ← move_snake_loop (Z.to_nat len) 0 snake;
  if flag =? 1 then
    v ← Int.add (x temp) 1; array_set snake h {| x := v; y := y temp |}
  else if flag =? 2 then
    v ← Int.sub (y temp) 1; array_set snake h {| x := x temp; y := v |}
  else if flag =? 3 then
    v ← Int.sub (x temp) 1; array_set snake h {| x := v; y := y temp |}
  else if flag =? 4 then
    v ← Int.add (y temp) 1; array_set snake h {| x := x temp; y := v |}
  else Some snake.

(** ** [check_collision] *)

(** The loop [for (int i = 0; i < length - 1; i++)], entered at index [i]
    with [n] iterations left. *)
Fixpoint check_collision_loop (n : nat) (i : Z) (snake : list Point) (len : Z)
  : option Z :=
  match n with
  | O => Some 0
  | S n' =>
      h ← Int.sub len 1;
      hd ← array_get snake h;
      p ← array_get snake i;
      if (x hd =? x p) && (y hd =? y p) then Some 1
      else j ← Int.add i 1; check_collision_loop n' j snake len
  end.

Definition check_collision (snake : list Point) (len : Z) : option Z :=
  h ← Int.sub len 1;
  hd ← array_get snake h;
  if (x hd <=? 0) || (x hd >=? HEIGHT - 1) || (y hd <=? 0) || (y hd >=? WIDTH - 1)
  then Some 2
  else
    n ← Int.sub len 1;
    check_collision_loop (Z.to_nat n) 0 snake len.

(** ** [grow_snake] *)

(** The loop [for (int i = *length; i > 0; i--) snake[i] = snake[i-1];]
    entered at index [i] with [n] iterations left. *)
Fixpoint grow_snake_loop (n : nat) (i : Z) (snake : list Point)
  : option (list Point) :=
  match n with
  | O => Some snake
  | S n' =>
      j ← Int.sub i 1;
      p ← array_get snake j;
      snake' ← array_set snake i p;
      grow_snake_loop n' j snake'
  end.

Definition grow_snake (g : Game) (r1 r2 : Z) : option Game :=
  old ← array_get (g_snake g) 0;
  '(fruitx, fruity) ← fruits r1 r2;
  score ← Int.add (g_score g) 5;
  snake ← grow_snake_loop (Z.to_nat (g_length g)) (g_length g) (g_snake g);
  snake ← array_set snake 0 old;
  len ← Int.add (g_length g) 1;
  Some (mkGame snake len (g_gameover g) score fruitx fruity).

(** ** [logic] *)

(** The sleep, in nanoseconds: [ts.tv_nsec] after the
    [if / else if / else if] chain. *)
Definition logic_sleep (score : Z) : Z :=
  let tv_nsec := 250000000 in
  if score >=? 25 then 200000000
  else if score >=? 50 then 150000000
  else if score >=? 75 then 100000000
  else tv_nsec.

(** [logic] returns the nanoseconds slept and the new state. *)
Definition logic (flag : Z) (g : Game) (r1 r2 : Z) : option (Z * Game) :=
  let ns := logic_sleep (g_score g) in
  if flag =? 0 then Some (ns, g)
  else
    snake ← move_snake (g_snake g) (g_length g) flag;
    c ← check_collision snake (g_length g);
    let g := set_gameover c (set_snake snake g) in
    if negb (c =? 0) then Some (ns, g)
    else
      h ← Int.sub (g_length g) 1;
      hd ← array_get (g_snake g) h;
      g ← (if (x hd =? g_fruitx g) && (y hd =? g_fruity g)
           then grow_snake g r1 r2
           else Some g);
      if g_score g =? 100 then Some (ns, set_gameover (-1) g)
      else Some (ns, g).

(** ** [main] *)

(** The state before the loop, with the flag. *)
Definition main_init (r1 r2 : Z) : option (Game * Z) :=
  let gameover := 0 in
  let score := 0 in
  let flag := 0 in
  let snake := replicate (Z.to_nat LENGTH_SNAKE) (mkPoint 0 0) in
  '(fruitx, fruity) ← fruits r1 r2;
  p ← array_get snake 0;
  snake ← array_set snake 0 {| x := Z.quot WIDTH 2; y := y p |};
  p ← array_get snake 0;
  snake ← array_set snake 0 {| x := x p; y := Z.quot HEIGHT 2 |};
  let len := 1 in
  Some (mkGame snake len gameover score fruitx fruity, flag).

(** One iteration of [while (gameover == 0)]: [stdin] holds the bytes
    pending when [input] runs (any bytes, at every iteration), [r1] and
    [r2] are what [rand()] would return.  An iteration that reads the quit
    key leaves the loop ([break]) and is no step. *)
Inductive main_step : Game * Z -> Game * Z -> Prop :=
| main_tick g flag stdin r1 r2 flag' stdin' ns g' :
    g_gameover g = 0 ->
    input flag stdin = (flag', stdin') ->
    flag' <> -1 ->
    rand_ok r1 -> rand_ok r2 ->
    logic flag' g r1 r2 = Some (ns, g') ->
    main_step (g, flag) (g', flag').

(** The states the loop of [main] can be in. *)
Inductive reachable : Game * Z -> Prop :=
| reach_init r1 r2 s :
    rand_ok r1 -> rand_ok r2 ->
    main_init r1 r2 = Some s ->
    reachable s
| reach_step s s' :
    reachable s -> main_step s s' -> reachable s'.

(** ** The vocabulary of the specification *)

(** The head offset as the specification words it, with [x] the row and
    [y] the column: Down (1) row+1, Left (2) col-1, Up (3) row-1,
    Right (4) col+1. *)
Definition spec_offset (flag : Z) (p : Point) : Point :=
  if flag =? 1 then {| x := x p + 1; y := y p |}
  else if flag =? 2 then {| x := x p; y := y p - 1 |}
  else if flag =? 3 then {| x := x p - 1; y := y p |}
  else {| x := x p; y := y p + 1 |}.

(** The arrow keys as the terminal sends them, ESC [ A..D, with the
    direction flag each one requests and the direction it reverses. *)
Inductive Arrow : Type := Up | Down | Right | Left.

Definition arrow_bytes (a : Arrow) : list Z :=
  match a with
  | Up => [27; 91; 65]
  | Down => [27; 91; 66]
  | Right => [27; 91; 67]
  | Left => [27; 91; 68]
  end.

Definition arrow_flag (a : Arrow) : Z :=
  match a with Down => 1 | Left => 2 | Up => 3 | Right => 4 end.

Definition opposite (a : Arrow) : Arrow :=
  match a with Up => Down | Down => Up | Right => Left | Left => Right end.

(** The interior of the board in the words of the specification, [x] being
    the row and [y] the column as in [check_collision] and [draw.c]:
    row in [1, HEIGHT-2], column in [1, WIDTH-2]. *)
Definition interior (row col : Z) : Prop :=
  1 <= row <= HEIGHT - 2 /\ 1 <= col <= WIDTH - 2.

(** The centre of the board in the words of the specification, a
    coordinate being (row, column): row HEIGHT/2, column WIDTH/2. *)
Definition board_center : Point :=
  {| x := Z.quot HEIGHT 2; y := Z.quot WIDTH 2 |}.

(** No live segment of the snake has the coordinate of the fruit. *)
Definition fruit_off_snake (g : Game) : Prop :=
  forall (i : Z) (p : Point),
    0 <= i < g_length g ->
    array_get (g_snake g) i = Some p ->
    ~ (x p = g_fruitx g /\ y p = g_fruity g).

(** What the specification says of the score in the loop of [main]: a
    multiple of 5 between 0 and 100. *)
Definition score_in_steps_of_5 (score : Z) : Prop :=
  0 <= score <= 100 /\ (5 | score).

(** The states of the loop of [main] in which a tick has defined
    behaviour: the array has its declared size, the snake has one segment
    per five points plus one, the score is between 0 and 100, the flag is 0
    or a direction, and while the game runs the score is below 100 and the
    head has coordinates that can be moved by one cell. *)
Definition well_formed (s : Game * Z) : Prop :=
  let g := fst s in
  length (g_snake g) = Z.to_nat LENGTH_SNAKE /\
  g_score g = 5 * (g_length g - 1) /\
  0 <= g_score g <= 100 /\
  0 <= snd s <= 4 /\
  (g_gameover g = 0 ->
   g_score g < 100 /\
   exists hd,
     array_get (g_snake g) (g_length g - 1) = Some hd /\
     Int.MIN < x hd < Int.MAX /\ Int.MIN < y hd < Int.MAX).

(** ** [draw.c]

    The functions of [draw.c] only print.  [draw_border] prints plain
    characters; the other functions modelled here print one character at
    an address, [printf("\033[%d;%dH<c>", row, col)]. *)

(** The character [draw_border] prints for row [i] and column [j]. *)
Definition border_char (i j : Z) : ascii :=
  if (i =? 0) || (i =? WIDTH - 1) || (j =? 0) || (j =? HEIGHT - 1)
  then "#"%char else " "%char.

(** The inner loop [for (int j = 0; j < WIDTH; j++)] of [draw_border],
    entered at column [j] with [n] iterations left. *)
Fixpoint draw_border_row (n : nat) (i j : Z) : list ascii :=
  match n with
  | O => []
  | S n' => border_char i j :: draw_border_row n' i (j + 1)
  end.

(** The outer loop [for (int i = 0; i < HEIGHT; i++)], entered at row [i]
    with [n] iterations left; "010" is the newline. *)
Fixpoint draw_border_rows (n : nat) (i : Z) : list ascii :=
  match n with
  | O => []
  | S n' =>
      draw_border_row (Z.to_nat WIDTH) i 0 ++ "010"%char
        :: draw_border_rows n' (i + 1)
  end.

(** [draw_border]: the characters printed, in order. *)
Definition draw_border : list ascii := draw_border_rows (Z.to_nat HEIGHT) 0.

(** [printf("\033[%d;%dH<c>", row, col)]. *)
Inductive Put : Type := At (row col : Z) (c : ascii).

(** The loop [for (int k = 0; k < length; k++)] of [erase_old_snake] and of
    [draw_snake], which differ by the character printed only; entered at
    index [k] with [n] iterations left. *)
Fixpoint snake_cells_loop (c : ascii) (n : nat) (k : Z) (snake : list Point)
  : option (list Put) :=
  match n with
  | O => Some []
  | S n' =>
      p ← array_get snake k;
      row ← Int.add (x p) 1;
      col ← Int.add (y p) 1;
      k' ← Int.add k 1;
      rest ← snake_cells_loop c n' k' snake;
      Some (At row col c :: rest)
  end.

Definition erase_old_snake (snake : list Point) (len : Z) : option (list Put) :=
  snake_cells_loop " "%char (Z.to_nat len) 0 snake.

Definition draw_snake (snake : list Point) (len : Z) : option (list Put) :=
  snake_cells_loop "0"%char (Z.to_nat len) 0 snake.

Definition draw (len : Z) (snake : list Point) : option (list Put) :=
  draw_snake snake len.

Definition draw_fruit (fruitx fruity : Z) : option (list Put) :=
  row ← Int.add fruitx 1; col ← Int.add fruity 1; Some [At row col "*"%char].

Definition erase_old_fruit (fruitx fruity : Z) : option (list Put) :=
  row ← Int.add fruitx 1; col ← Int.add fruity 1; Some [At row col " "%char].

(** The terminal: the character shown at each (row, column).  An addressed
    [printf] replaces the character at its address; [show] runs a sequence
    of them. *)
Definition Screen : Type := Z * Z -> ascii.

Definition put (scr : Screen) (p : Put) : Screen :=
  match p with
  | At row col c => fun rc => if decide (rc = (row, col)) then c else scr rc
  end.

Definition show (out : list Put) (scr : Screen) : Screen := foldl put scr out.

(** The addresses at which the first [len] segments are printed. *)
Definition snake_cell (snake : list Point) (len : Z) (rc : Z * Z) : Prop :=
  exists (k : Z) (p : Point),
    0 <= k < len /\ array_get snake k = Some p /\ rc = (x p + 1, y p + 1).

(** ** The end of [main] *)

(** The [printf] calls of the [switch] after the loop; "027" is ESC and
    "010" the newline. *)
Definition end_message (gameover : Z) : list string :=
  if gameover =? 1 then ["You hit yourself" +:+ String "010" ""]
  else if gameover =? 2 then ["You hit the boundary" +:+ String "010" ""]
  else if gameover =? -1 then
    [String "027" "[0;32m"; "You are a winner" +:+ String "010" ""]
  else ["Game Over" +:+ String "010" ""].

(** The states in which [main] leaves its loop: the loop condition
    [gameover == 0] fails, or [input] has set the flag to -1 ([break]). *)
Inductive main_exit : Game * Z -> Prop :=
| exit_gameover s :
    reachable s -> g_gameover (fst s) <> 0 -> main_exit s
| exit_quit g flag stdin stdin' :
    reachable (g, flag) -> g_gameover g = 0 ->
    input flag stdin = (-1, stdin') ->
    main_exit (g, -1).

(** A flag that turns into the opposite direction. *)
Definition reversed (flag flag' : Z) : Prop :=
  (flag = 1 /\ flag' = 3) \/ (flag = 3 /\ flag' = 1) \/
  (flag = 2 /\ flag' = 4) \/ (flag = 4 /\ flag' = 2).

(** The wall test of [check_collision] on a coordinate. *)
Definition wall (p : Point) : Prop :=
  x p <= 0 \/ x p >= HEIGHT - 1 \/ y p <= 0 \/ y p >= WIDTH - 1.

(** * Facts *)

(** ** Integers and arrays *)

Lemma checked_Some z : Int.MIN <= z <= Int.MAX -> Int.checked z = Some z.
Proof.
  intros H. unfold Int.checked, Int.in_range.
  destruct (Z.leb_spec Int.MIN z); [|lia].
  destruct (Z.leb_spec z Int.MAX); [reflexivity|lia].
Qed.

Lemma checked_inv z r :
  Int.checked z = Some r -> r = z /\ Int.MIN <= z <= Int.MAX.
Proof.
  unfold Int.checked, Int.in_range.
  destruct (Z.leb_spec Int.MIN z); simpl; [|discriminate].
  destruct (Z.leb_spec z Int.MAX); [|discriminate].
  intros [= <-]. lia.
Qed.

Lemma add_Some a b :
  Int.MIN <= a + b <= Int.MAX -> Int.add a b = Some (a + b).
Proof. apply checked_Some. Qed.

Lemma sub_Some a b :
  Int.MIN <= a - b <= Int.MAX -> Int.sub a b = Some (a - b).
Proof. apply checked_Some. Qed.

Lemma array_get_nat (a : list Point) (k : nat) :
  array_get a (Z.of_nat k) = a !! k.
Proof.
  unfold array_get. destruct (Z.ltb_spec (Z.of_nat k) 0); [lia|].
  by rewrite Nat2Z.id.
Qed.

Lemma array_get_pos (a : list Point) (i : Z) :
  0 <= i -> array_get a i = a !! Z.to_nat i.
Proof. intros H. unfold array_get. destruct (Z.ltb_spec i 0); [lia|done]. Qed.

Lemma array_get_inv (a : list Point) (i : Z) (p : Point) :
  array_get a i = Some p -> 0 <= i < Z.of_nat (length a) /\ a !! Z.to_nat i = Some p.
Proof.
  unfold array_get. destruct (Z.ltb_spec i 0); [discriminate|].
  intros H'. split; [|done]. apply lookup_lt_Some in H'. lia.
Qed.

Lemma array_set_nat (a : list Point) (k : nat) (p : Point) :
  (k < length a)%nat -> array_set a (Z.of_nat k) p = Some (<[k := p]> a).
Proof.
  intros H. unfold array_set.
  destruct (Z.leb_spec 0 (Z.of_nat k)); [|lia].
  destruct (Z.ltb_spec (Z.of_nat k) (Z.of_nat (length a))); [|lia].
  by rewrite Nat2Z.id.
Qed.

Lemma array_set_inv (a a' : list Point) (i : Z) (p : Point) :
  array_set a i p = Some a' ->
  0 <= i < Z.of_nat (length a) /\ a' = <[Z.to_nat i := p]> a.
Proof.
  unfold array_set.
  destruct (Z.leb_spec 0 i); simpl; [|discriminate].
  destruct (Z.ltb_spec i (Z.of_nat (length a))); [|discriminate].
  intros [= <-]. split; [lia|done].
Qed.

(** ** [move_snake] *)

(** The shifting loop, started at slot [i] for [n] iterations: slots
    [i .. i+n-1] receive their right neighbour, every other slot is kept. *)
Lemma move_snake_loop_spec (n : nat) :
  forall (i : nat) (snake : list Point),
    (i + n < length snake)%nat ->
    Z.of_nat (i + n) <= Int.MAX ->
    exists snake',
      move_snake_loop n (Z.of_nat i) snake = Some snake' /\
      length snake' = length snake /\
      forall k : nat,
        snake' !! k =
        if decide (i <= k < i + n)%nat then snake !! S k else snake !! k.
Proof.
  induction n as [|n IH]; intros i snake Hcap Hmax.
  - exists snake. split; [done|]. split; [done|].
    intros k. case_decide; [lia|done].
  - simpl. rewrite add_Some by int_lia. simpl.
    replace (Z.of_nat i + 1) with (Z.of_nat (S i)) by lia.
    rewrite array_get_nat.
    destruct (lookup_lt_is_Some_2 snake (S i)) as [p Hp]; [lia|].
    rewrite Hp. simpl. rewrite array_set_nat by lia. simpl.
    destruct (IH (S i) (<[i := p]> snake)) as (s' & Hrun & Hlen & Hk).
    { rewrite length_insert. lia. }
    { lia. }
    exists s'. split; [exact Hrun|]. split.
    { by rewrite Hlen, length_insert. }
    intros k. rewrite Hk.
    destruct (decide (k = i)) as [->|Hne].
    + rewrite decide_False by lia. rewrite decide_True by lia.
      rewrite list_lookup_insert_eq by lia. done.
    + case_decide.
      * rewrite decide_True by lia. by rewrite list_lookup_insert_ne by lia.
      * rewrite decide_False by lia. by rewrite list_lookup_insert_ne by lia.
Qed.

(** For a direction flag in 1..4 and a head away from the ends of the [int]
    range, the [switch] stores the head offset of the specification. *)
Lemma move_snake_unfold (snake : list Point) (L flag : Z) (hd : Point) :
  1 <= L <= Int.MAX ->
  array_get snake (L - 1) = Some hd ->
  Int.MIN < x hd < Int.MAX -> Int.MIN < y hd < Int.MAX ->
  1 <= flag <= 4 ->
  move_snake snake L flag =
  (s ← move_snake_loop (Z.to_nat L) 0 snake;
   array_set s (L - 1) (spec_offset flag hd)).
Proof.
  intros HL Hhd Hx Hy Hflag. unfold move_snake.
  rewrite sub_Some by int_lia. simpl. rewrite Hhd. simpl.
  destruct (move_snake_loop (Z.to_nat L) 0 snake) as [s|]; [simpl|done].
  assert (flag = 1 \/ flag = 2 \/ flag = 3 \/ flag = 4) as Hcase by lia.
  destruct Hcase as [-> | [-> | [-> | ->]]]; unfold spec_offset; simpl;
    rewrite ?add_Some, ?sub_Some by int_lia; reflexivity.
Qed.

(** What [move_snake] returns for a direction flag in 1..4. *)
Lemma move_snake_run
    (snake : list Point) (L flag : Z) (hd : Point) :
  1 <= L <= Int.MAX ->
  L < Z.of_nat (length snake) ->
  array_get snake (L - 1) = Some hd ->
  Int.MIN < x hd < Int.MAX -> Int.MIN < y hd < Int.MAX ->
  1 <= flag <= 4 ->
  exists snake',
    move_snake snake L flag = Some snake' /\
    length snake' = length snake /\
    (forall i, 0 <= i <= L - 2 -> array_get snake' i = array_get snake (i + 1)) /\
    array_get snake' (L - 1) = Some (spec_offset flag hd) /\
    (forall i, L <= i -> array_get snake' i = array_get snake i).
Proof.
  intros HL Hcap Hhd Hx Hy Hflag.
  rewrite (move_snake_unfold snake L flag hd) by assumption.
  destruct (move_snake_loop_spec (Z.to_nat L) 0 snake)
    as (s & Hrun & Hlen & Hk); [lia|lia|].
  change (Z.of_nat 0) with 0 in Hrun. rewrite Hrun. simpl.
  replace (L - 1) with (Z.of_nat (Z.to_nat (L - 1))) by lia.
  rewrite array_set_nat by lia.
  eexists. split; [reflexivity|].
  split; [by rewrite length_insert|].
  split; [|split].
  - intros i Hi. rewrite !array_get_pos by lia.
    rewrite list_lookup_insert_ne by lia. rewrite Hk.
    rewrite decide_True by lia. f_equal. lia.
  - rewrite array_get_nat. apply list_lookup_insert_eq. lia.
  - intros i Hi. rewrite !array_get_pos by lia.
    rewrite list_lookup_insert_ne by lia. rewrite Hk.
    by rewrite decide_False by lia.
Qed.

(** C1. For a snake of length L >= 1 stored in an array that still has the
    slot of index L (the loop reads it), and a direction flag 1 (Down),
    2 (Left), 3 (Up) or 4 (Right), [move_snake] returns normally; every
    segment moves one slot toward the tail (new segment i is old segment
    i+1 for i in [0, L-2]); the new head, at index L-1, is the old head
    moved one cell in the direction (Down row+1, Up row-1, Right col+1,
    Left col-1); the array keeps its size and the slots from L on, so the
    snake is still L segments long. *)
Theorem move_snake_shifts_and_offsets_head
    (snake : list Point) (L flag : Z) (hd : Point) :
  1 <= L <= Int.MAX ->
  L < Z.of_nat (length snake) ->
  array_get snake (L - 1) = Some hd ->
  Int.MIN < x hd < Int.MAX -> Int.MIN < y hd < Int.MAX ->
  1 <= flag <= 4 ->
  exists snake',
    move_snake snake L flag = Some snake' /\
    length snake' = length snake /\
    (forall i, 0 <= i <= L - 2 -> array_get snake' i = array_get snake (i + 1)) /\
    array_get snake' (L - 1) = Some (spec_offset flag hd) /\
    (forall i, L <= i -> array_get snake' i = array_get snake i).
Proof. exact (move_snake_run snake L flag hd). Qed.

(** ** [check_collision] *)

Lemma Point_eqb_spec (p q : Point) :
  (x p =? x q) && (y p =? y q) = true <-> p = q.
Proof.
  destruct p as [a b], q as [c d]. simpl.
  rewrite andb_true_iff, !Z.eqb_eq. split.
  - intros [-> ->]. reflexivity.
  - intros [= -> ->]. done.
Qed.

(** The self-collision scan over slots [i .. i+n-1]: 1 when one of them
    holds the head's coordinate, 0 otherwise. *)
Lemma check_collision_loop_spec (snake : list Point) (L : Z) (hd : Point) (n : nat) :
  forall i : nat,
    1 <= L <= Int.MAX ->
    array_get snake (L - 1) = Some hd ->
    (i + n <= length snake)%nat ->
    Z.of_nat (i + n) <= Int.MAX ->
    exists c,
      check_collision_loop n (Z.of_nat i) snake L = Some c /\
      (c = 0 \/ c = 1) /\
      (c = 1 <-> exists k : nat, (i <= k < i + n)%nat /\ snake !! k = Some hd).
Proof.
  induction n as [|n IH]; intros i HL Hhd Hcap Hmax.
  - exists 0. split; [done|]. split; [by left|].
    split; [done|]. intros (k & Hk & _). lia.
  - simpl. rewrite sub_Some by int_lia. simpl. rewrite Hhd. simpl.
    rewrite array_get_nat.
    destruct (lookup_lt_is_Some_2 snake i) as [p Hp]; [lia|].
    rewrite Hp. simpl.
    destruct ((x hd =? x p) && (y hd =? y p)) eqn:Heq.
    + apply Point_eqb_spec in Heq. subst p.
      exists 1. split; [done|]. split; [by right|].
      split; [|done]. intros _. exists i. split; [lia|done].
    + assert (p <> hd) as Hne.
      { intros ->. rewrite (proj2 (Point_eqb_spec hd hd) eq_refl) in Heq.
        discriminate. }
      rewrite add_Some by int_lia. simpl.
      replace (Z.of_nat i + 1) with (Z.of_nat (S i)) by lia.
      destruct (IH (S i)) as (c & Hrun & Hc & Hiff); [done|done|lia|lia|].
      exists c. split; [done|]. split; [done|].
      rewrite Hiff. split.
      * intros (k & Hk & Hlk). exists k. split; [lia|done].
      * intros (k & Hk & Hlk). exists k. split; [|done].
        destruct (decide (k = i)) as [->|]; [congruence|lia].
Qed.

(** What [check_collision] returns. *)
Lemma check_collision_run (snake : list Point) (L : Z) (hd : Point) :
  1 <= L <= Int.MAX ->
  L <= Z.of_nat (length snake) ->
  array_get snake (L - 1) = Some hd ->
  let wall := x hd <= 0 \/ x hd >= HEIGHT - 1 \/ y hd <= 0 \/ y hd >= WIDTH - 1 in
  let self := exists i, 0 <= i <= L - 2 /\ array_get snake i = Some hd in
  exists c,
    check_collision snake L = Some c /\
    (c = 0 \/ c = 1 \/ c = 2) /\
    (c = 2 <-> wall) /\
    (c = 1 <-> ~ wall /\ self) /\
    (c = 0 <-> ~ wall /\ ~ self).
Proof.
  intros HL Hcap Hhd wall self. unfold check_collision.
  rewrite sub_Some by int_lia. simpl. rewrite Hhd. simpl.
  destruct ((x hd <=? 0) || (x hd >=? HEIGHT - 1) || (y hd <=? 0)
            || (y hd >=? WIDTH - 1)) eqn:Hw.
  - assert wall as W.
    { unfold wall. rewrite !orb_true_iff in Hw.
      rewrite !Z.leb_le, !Z.geb_le in Hw. lia. }
    exists 2. split; [done|]. split; [auto|].
    split; [done|]. split; split; try discriminate; tauto.
  - assert (~ wall) as W.
    { unfold wall. rewrite !orb_false_iff in Hw.
      rewrite !Z.leb_gt in Hw.
      destruct Hw as [[[? H2] ?] H4].
      rewrite Z.geb_leb, Z.leb_gt in H2, H4. lia. }
    destruct (check_collision_loop_spec snake L hd (Z.to_nat (L - 1)) 0)
      as (c & Hrun & Hc & Hiff); [done|done|lia|lia|].
    change (Z.of_nat 0) with 0 in Hrun. rewrite Hrun.
    assert (c = 1 <-> self) as Hself.
    { rewrite Hiff. unfold self. split.
      - intros (k & Hk & Hlk). exists (Z.of_nat k).
        split; [lia|]. by rewrite array_get_nat.
      - intros (i & Hi & Hget). exists (Z.to_nat i).
        split; [lia|]. by rewrite <- array_get_pos by lia. }
    exists c. split; [done|]. split; [tauto|].
    split; [|split].
    + split; [intros ->; destruct Hc; discriminate|tauto].
    + tauto.
    + split.
      * intros ->. split; [done|]. rewrite <- Hself. discriminate.
      * intros [_ Hns]. destruct Hc as [->| ->]; [done|]. tauto.
Qed.

(** C2. For a snake of length L >= 1 lying inside its array,
    [check_collision] returns 0, 1 or 2.  It returns 2 (Wall) exactly when
    the head's row is <= 0 or >= HEIGHT-1 or its column is <= 0 or
    >= WIDTH-1, whatever the other segments are; 1 (Self) exactly when no
    wall condition holds and some segment of index in [0, L-2] has the
    head's coordinate; and 0 (None) otherwise.  With both a wall and a self
    condition the result is 2. *)
Theorem check_collision_classifies (snake : list Point) (L : Z) (hd : Point) :
  1 <= L <= Int.MAX ->
  L <= Z.of_nat (length snake) ->
  array_get snake (L - 1) = Some hd ->
  let wall := x hd <= 0 \/ x hd >= HEIGHT - 1 \/ y hd <= 0 \/ y hd >= WIDTH - 1 in
  let self := exists i, 0 <= i <= L - 2 /\ array_get snake i = Some hd in
  exists c,
    check_collision snake L = Some c /\
    (c = 0 \/ c = 1 \/ c = 2) /\
    (c = 2 <-> wall) /\
    (c = 1 <-> ~ wall /\ self) /\
    (c = 0 <-> ~ wall /\ ~ self).
Proof. exact (check_collision_run snake L hd). Qed.

(** ** [fruits] and [grow_snake] *)

(** On a board with an interior, [fruits] returns normally: [fruitx] is
    drawn in [1, WIDTH-2] and [fruity] in [1, HEIGHT-2]. *)
Lemma fruits_range (r1 r2 : Z) :
  2 < WIDTH <= Int.MAX -> 2 < HEIGHT <= Int.MAX ->
  rand_ok r1 -> rand_ok r2 ->
  fruits r1 r2 = Some (Z.rem r1 (WIDTH - 2) + 1, Z.rem r2 (HEIGHT - 2) + 1) /\
  1 <= Z.rem r1 (WIDTH - 2) + 1 <= WIDTH - 2 /\
  1 <= Z.rem r2 (HEIGHT - 2) + 1 <= HEIGHT - 2.
Proof.
  intros HW HH [H1 H1'] [H2 H2'].
  pose proof (Z.rem_bound_pos r1 (WIDTH - 2) H1 ltac:(lia)) as B1.
  pose proof (Z.rem_bound_pos r2 (HEIGHT - 2) H2 ltac:(lia)) as B2.
  split; [|lia].
  unfold fruits, Int.rem.
  destruct (Z.eqb_spec (WIDTH - 2) 0); [lia|].
  destruct (Z.eqb_spec r1 Int.MIN); [int_lia|]. simpl.
  rewrite (checked_Some (Z.rem r1 (WIDTH - 2))) by int_lia. simpl.
  rewrite add_Some by int_lia. simpl.
  destruct (Z.eqb_spec (HEIGHT - 2) 0); [lia|].
  destruct (Z.eqb_spec r2 Int.MIN); [int_lia|]. simpl.
  rewrite (checked_Some (Z.rem r2 (HEIGHT - 2))) by int_lia. simpl.
  rewrite add_Some by int_lia. reflexivity.
Qed.

(** The splicing loop, started at slot [i] for [n] iterations: slots
    [i-n+1 .. i] receive their left neighbour, every other slot is kept. *)
Lemma grow_snake_loop_spec (n : nat) :
  forall (i : nat) (snake : list Point),
    (n <= i)%nat -> (i < length snake)%nat ->
    Z.of_nat i <= Int.MAX ->
    exists snake',
      grow_snake_loop n (Z.of_nat i) snake = Some snake' /\
      length snake' = length snake /\
      forall k : nat,
        snake' !! k =
        if decide (i - n < k <= i)%nat then snake !! pred k else snake !! k.
Proof.
  induction n as [|n IH]; intros i snake Hn Hcap Hmax.
  - exists snake. split; [done|]. split; [done|].
    intros k. case_decide; [lia|done].
  - simpl. rewrite sub_Some by int_lia. simpl.
    replace (Z.of_nat i - 1) with (Z.of_nat (pred i)) by lia.
    rewrite array_get_nat.
    destruct (lookup_lt_is_Some_2 snake (pred i)) as [p Hp]; [lia|].
    rewrite Hp. simpl. rewrite array_set_nat by lia. simpl.
    destruct (IH (pred i) (<[i := p]> snake)) as (s' & Hrun & Hlen & Hk).
    { lia. }
    { rewrite length_insert. lia. }
    { lia. }
    exists s'. split; [exact Hrun|]. split.
    { by rewrite Hlen, length_insert. }
    intros k. rewrite Hk.
    destruct (decide (k = i)) as [->|Hne].
    + rewrite decide_False by lia. rewrite decide_True by lia.
      rewrite list_lookup_insert_eq by lia. done.
    + case_decide.
      * rewrite decide_True by lia. by rewrite list_lookup_insert_ne by lia.
      * rewrite decide_False by lia. by rewrite list_lookup_insert_ne by lia.
Qed.

(** What a call of [grow_snake] returns, when the array has room for one
    more segment and the score can take five more points. *)
Lemma grow_snake_run (g : Game) (r1 r2 : Z) :
  2 < WIDTH <= Int.MAX -> 2 < HEIGHT <= Int.MAX ->
  rand_ok r1 -> rand_ok r2 ->
  0 <= g_length g < Int.MAX ->
  g_length g < Z.of_nat (length (g_snake g)) ->
  Int.MIN <= g_score g <= Int.MAX - 5 ->
  exists snake',
    grow_snake g r1 r2 =
      Some (mkGame snake' (g_length g + 1) (g_gameover g) (g_score g + 5)
                   (Z.rem r1 (WIDTH - 2) + 1) (Z.rem r2 (HEIGHT - 2) + 1)) /\
    length snake' = length (g_snake g) /\
    forall k : nat,
      snake' !! k =
      if decide (k = 0)%nat then g_snake g !! 0%nat
      else if decide (Z.of_nat k <= g_length g) then g_snake g !! pred k
      else g_snake g !! k.
Proof.
  intros HW HH Hr1 Hr2 HL Hcap Hscore. unfold grow_snake.
  destruct (lookup_lt_is_Some_2 (g_snake g) 0) as [old Hold]; [lia|].
  pose proof (array_get_nat (g_snake g) 0) as Hget0. change (Z.of_nat 0) with 0 in Hget0.
  rewrite Hget0, Hold. simpl.
  destruct (fruits_range r1 r2) as (-> & _); [done..|]. simpl.
  rewrite add_Some by int_lia. simpl.
  destruct (grow_snake_loop_spec (Z.to_nat (g_length g))
              (Z.to_nat (g_length g)) (g_snake g))
    as (s & Hrun & Hlen & Hk); [lia|lia|lia|].
  rewrite Z2Nat.id in Hrun by lia. rewrite Hrun. simpl.
  pose proof (array_set_nat s 0 old ltac:(lia)) as Hset0. change (Z.of_nat 0) with 0 in Hset0.
  rewrite Hset0. simpl.
  rewrite add_Some by int_lia. simpl.
  eexists. split; [reflexivity|]. split; [by rewrite length_insert|].
  intros k. destruct (decide (k = 0%nat)) as [->|Hk0].
  - rewrite list_lookup_insert_eq by lia. done.
  - rewrite list_lookup_insert_ne by lia. rewrite Hk.
    case_decide; case_decide; try lia; done.
Qed.

(** C3, amended.  A call of [grow_snake] on a board with an interior, with
    room in the array for one more segment, returns normally; the length
    increases by exactly 1 and the score by exactly 5; both coordinates of
    the new fruit are at least 1, and on a board with WIDTH = HEIGHT the
    new fruit lies strictly inside the interior.  The new fruit is not
    compared with the snake. *)
Theorem grow_snake_length_score_fruit (g : Game) (r1 r2 : Z) :
  2 < WIDTH <= Int.MAX -> 2 < HEIGHT <= Int.MAX ->
  rand_ok r1 -> rand_ok r2 ->
  0 <= g_length g < Int.MAX ->
  g_length g < Z.of_nat (length (g_snake g)) ->
  Int.MIN <= g_score g <= Int.MAX - 5 ->
  exists g',
    grow_snake g r1 r2 = Some g' /\
    g_length g' = g_length g + 1 /\
    g_score g' = g_score g + 5 /\
    1 <= g_fruitx g' /\ 1 <= g_fruity g' /\
    (WIDTH = HEIGHT -> interior (g_fruitx g') (g_fruity g')).
Proof.
  intros HW HH Hr1 Hr2 HL Hcap Hscore.
  destruct (grow_snake_run g r1 r2) as (s & Hrun & _); [done..|].
  destruct (fruits_range r1 r2) as (_ & Hx & Hy); [done..|].
  eexists. split; [exact Hrun|]. simpl.
  repeat split; try lia.
Qed.

(** C5, amended.  A call of [grow_snake] on a snake of length L >= 1, with
    room in the array for one more segment, duplicates the tail: after the
    splice the segment at index 0 is the old segment 0, every old segment i
    sits at index i+1, so index 1 holds the old tail as well and the head,
    now at index L, is the old head; the length is L + 1. *)
Theorem grow_snake_duplicates_tail (g : Game) (r1 r2 : Z) :
  2 < WIDTH <= Int.MAX -> 2 < HEIGHT <= Int.MAX ->
  rand_ok r1 -> rand_ok r2 ->
  1 <= g_length g < Int.MAX ->
  g_length g < Z.of_nat (length (g_snake g)) ->
  Int.MIN <= g_score g <= Int.MAX - 5 ->
  exists g',
    grow_snake g r1 r2 = Some g' /\
    g_length g' = g_length g + 1 /\
    array_get (g_snake g') 0 = array_get (g_snake g) 0 /\
    (forall i, 0 <= i <= g_length g - 1 ->
               array_get (g_snake g') (i + 1) = array_get (g_snake g) i) /\
    (forall i, g_length g < i ->
               array_get (g_snake g') i = array_get (g_snake g) i).
Proof.
  intros HW HH Hr1 Hr2 HL Hcap Hscore.
  destruct (grow_snake_run g r1 r2) as (s & Hrun & _ & Hk); [done|done|done|done|lia|done|done|].
  eexists. split; [exact Hrun|]. simpl. split; [done|].
  split; [|split].
  - rewrite !array_get_pos by lia. rewrite Hk. by rewrite decide_True.
  - intros i Hi. rewrite !array_get_pos by lia. rewrite Hk.
    rewrite decide_False by lia. rewrite decide_True by lia.
    f_equal. lia.
  - intros i Hi. rewrite !array_get_pos by lia. rewrite Hk.
    rewrite decide_False by lia. by rewrite decide_False by lia.
Qed.

(** ** [logic] *)

Lemma array_set_length (a a' : list Point) (i : Z) (p : Point) :
  array_set a i p = Some a' -> length a' = length a.
Proof. intros (_ & ->)%array_set_inv. apply length_insert. Qed.

Lemma move_snake_loop_length (n : nat) :
  forall (i : Z) (snake snake' : list Point),
    move_snake_loop n i snake = Some snake' -> length snake' = length snake.
Proof.
  induction n as [|n IH]; intros i snake snake' H; simpl in H.
  - by injection H as <-.
  - destruct (Int.add i 1) as [j|]; [simpl in H|done].
    destruct (array_get snake j) as [p|]; [simpl in H|done].
    destruct (array_set snake i p) as [s1|] eqn:Hset; [simpl in H|done].
    rewrite (IH _ _ _ H). by apply array_set_length in Hset.
Qed.

Lemma move_snake_length (snake snake' : list Point) (L flag : Z) :
  move_snake snake L flag = Some snake' -> length snake' = length snake.
Proof.
  unfold move_snake. intros H.
  destruct (Int.sub L 1) as [h|]; [simpl in H|done].
  destruct (array_get snake h) as [temp|]; [simpl in H|done].
  destruct (move_snake_loop (Z.to_nat L) 0 snake) as [s1|] eqn:Hloop;
    [simpl in H|done].
  apply move_snake_loop_length in Hloop. rewrite <- Hloop.
  repeat
    match type of H with
    | (if ?b then _ else _) = _ => destruct b
    | (?m ≫= _) = Some _ => destruct m; [simpl in H|done]
    end;
    first [ by apply array_set_length in H | by injection H as <- ].
Qed.

(** C4. In a tick that moves (flag not 0) and where [check_collision]
    reports 0, [logic] returns normally and tests the score as it is after
    the growth of that same tick (five more when the moved head lies on the
    fruit): [gameover] becomes -1 when that score is exactly 100 and stays 0
    for every other value, above 100 too. *)
Theorem logic_wins_at_exactly_100
    (flag : Z) (g : Game) (r1 r2 : Z) (snake : list Point) (hd : Point) :
  2 < WIDTH <= Int.MAX -> 2 < HEIGHT <= Int.MAX ->
  rand_ok r1 -> rand_ok r2 ->
  g_length g < Int.MAX ->
  g_length g < Z.of_nat (length (g_snake g)) ->
  Int.MIN <= g_score g <= Int.MAX - 5 ->
  flag <> 0 ->
  move_snake (g_snake g) (g_length g) flag = Some snake ->
  check_collision snake (g_length g) = Some 0 ->
  array_get snake (g_length g - 1) = Some hd ->
  let eats := (x hd =? g_fruitx g) && (y hd =? g_fruity g) in
  exists g',
    logic flag g r1 r2 = Some (logic_sleep (g_score g), g') /\
    g_score g' = (if eats then g_score g + 5 else g_score g) /\
    g_gameover g' = (if g_score g' =? 100 then -1 else 0).
Proof.
  intros HW HH Hr1 Hr2 HL Hcap Hscore Hflag Hmove Hcc Hhd eats.
  pose proof (array_get_inv _ _ _ Hhd) as [Hh _].
  unfold logic. destruct (Z.eqb_spec flag 0) as [|_]; [done|].
  rewrite Hmove. simpl. rewrite Hcc. simpl.
  rewrite sub_Some by int_lia. simpl. rewrite Hhd. simpl.
  fold eats. destruct eats.
  - destruct (grow_snake_run (set_gameover 0 (set_snake snake g)) r1 r2)
      as (s & -> & _); simpl; [done|done|done|done|lia| |done|].
    { by rewrite (move_snake_length _ _ _ _ Hmove). }
    simpl. destruct (g_score g + 5 =? 100) eqn:E;
      eexists; (split; [reflexivity|]); simpl; by rewrite ?E.
  - simpl. destruct (g_score g =? 100) eqn:E;
      eexists; (split; [reflexivity|]); simpl; by rewrite ?E.
Qed.

(** C6, the code at score 80.  [logic] sleeps 200 ms there, not 100 ms: the
    second and third tests of the [if / else if] chain are reached only
    when the score is below 25. *)
Theorem logic_sleeps_200ms_at_score_80
    (snake : list Point) (len gameover fruitx fruity r1 r2 : Z) :
  fst <$> logic 0 (mkGame snake len gameover 80 fruitx fruity) r1 r2
  = Some 200000000.
Proof. reflexivity. Qed.

(** The whole step function of the sleep: 250 ms below 25 points, 200 ms
    from 25 points on. *)
Lemma logic_sleep_values (score : Z) :
  logic_sleep score = if score <? 25 then 250000000 else 200000000.
Proof.
  unfold logic_sleep. rewrite !Z.geb_leb.
  destruct (Z.ltb_spec score 25).
  - destruct (Z.leb_spec 25 score); [lia|].
    destruct (Z.leb_spec 50 score); [lia|].
    destruct (Z.leb_spec 75 score); [lia|done].
  - destruct (Z.leb_spec 25 score); [done|lia].
Qed.

(** [logic] sleeps [logic_sleep] of the score it is entered with. *)
Lemma logic_sleep_returned (flag : Z) (g g' : Game) (r1 r2 ns : Z) :
  logic flag g r1 r2 = Some (ns, g') -> ns = logic_sleep (g_score g).
Proof.
  unfold logic. intros H.
  repeat
    match type of H with
    | (if ?b then _ else _) = _ => destruct b
    | (?m ≫= _) = Some _ => destruct m; [simpl in H|done]
    end; by injection H as <- _.
Qed.

(** C9. A tick with direction flag 0 returns straight after the sleep:
    the snake, its length, [gameover], the score and the fruit are what
    they were; nothing is moved and no collision is tested. *)
Theorem logic_flag_0_changes_nothing (g : Game) (r1 r2 : Z) :
  logic 0 g r1 r2 = Some (logic_sleep (g_score g), g).
Proof. reflexivity. Qed.

(** ** [input] *)

(** C7. Whatever the current value of the flag, an arrow key sets the flag
    to the direction it requests unless the flag is the opposite direction,
    in which case the flag is kept: the request is taken exactly when the
    flag is not its opposite (Up refused while heading Down, Down while
    heading Up, Left while heading Right, Right while heading Left).  With
    no byte pending the flag is kept. *)
Theorem input_refuses_only_reversal (flag : Z) (a : Arrow) (rest : list Z) :
  input flag (arrow_bytes a ++ rest)
  = ((if flag =? arrow_flag (opposite a) then flag else arrow_flag a), rest)
  /\ (fst (input flag (arrow_bytes a ++ rest)) = arrow_flag a
      <-> flag <> arrow_flag (opposite a))
  /\ input flag [] = (flag, []).
Proof.
  split; [|split].
  - destruct a; simpl; unfold input; simpl;
      match goal with |- context [flag =? ?k] => destruct (Z.eqb_spec flag k) end;
      reflexivity.
  - destruct a; simpl; unfold input; simpl;
      match goal with |- context [flag =? ?k] => destruct (Z.eqb_spec flag k) end;
      simpl; split; intros; try done; lia.
  - reflexivity.
Qed.

(** ** [main] *)

(** The state [main] enters its loop with. *)
Lemma main_init_run (r1 r2 : Z) :
  2 < WIDTH <= Int.MAX -> 2 < HEIGHT <= Int.MAX ->
  rand_ok r1 -> rand_ok r2 ->
  1 <= LENGTH_SNAKE ->
  main_init r1 r2 =
  Some (mkGame (<[0%nat := mkPoint (Z.quot WIDTH 2) (Z.quot HEIGHT 2)]>
                  (replicate (Z.to_nat LENGTH_SNAKE) (mkPoint 0 0)))
               1 0 0
               (Z.rem r1 (WIDTH - 2) + 1) (Z.rem r2 (HEIGHT - 2) + 1),
        0).
Proof.
  intros HW HH Hr1 Hr2 Hlen. unfold main_init.
  destruct (fruits_range r1 r2) as (-> & _); [done..|]. simpl.
  set (a := replicate (Z.to_nat LENGTH_SNAKE) (mkPoint 0 0)).
  assert (0 < length a)%nat as Ha by (unfold a; rewrite length_replicate; lia).
  pose proof (array_get_nat a 0) as Hget. change (Z.of_nat 0) with 0 in Hget.
  assert (a !! 0%nat = Some (mkPoint 0 0)) as Hl
    by (apply lookup_replicate_2; lia).
  rewrite Hget, Hl. simpl.
  pose proof (array_set_nat a 0 (mkPoint (Z.quot WIDTH 2) 0) Ha) as Hset.
  change (Z.of_nat 0) with 0 in Hset. rewrite Hset. simpl.
  set (b := <[0%nat := mkPoint (Z.quot WIDTH 2) 0]> a).
  assert (0 < length b)%nat as Hb by (unfold b; rewrite length_insert; lia).
  pose proof (array_get_nat b 0) as Hget'. change (Z.of_nat 0) with 0 in Hget'.
  assert (b !! 0%nat = Some (mkPoint (Z.quot WIDTH 2) 0)) as Hl'
    by (apply list_lookup_insert_eq; lia).
  rewrite Hget', Hl'. simpl.
  pose proof (array_set_nat b 0 (mkPoint (Z.quot WIDTH 2) (Z.quot HEIGHT 2)) Hb)
    as Hset'.
  change (Z.of_nat 0) with 0 in Hset'. rewrite Hset'. simpl.
  unfold b. by rewrite list_insert_insert_eq.
Qed.

Lemma grow_snake_score (g g' : Game) (r1 r2 : Z) :
  grow_snake g r1 r2 = Some g' ->
  g_score g' = g_score g + 5 /\ g_gameover g' = g_gameover g.
Proof.
  unfold grow_snake. intros H.
  destruct (array_get (g_snake g) 0); [simpl in H|done].
  destruct (fruits r1 r2) as [[fx fy]|]; [simpl in H|done].
  destruct (Int.add (g_score g) 5) as [sc|] eqn:Hsc; [simpl in H|done].
  destruct (grow_snake_loop _ _ _); [simpl in H|done].
  destruct (array_set _ 0 _); [simpl in H|done].
  destruct (Int.add (g_length g) 1); [simpl in H|done].
  injection H as <-. simpl. apply checked_inv in Hsc as [-> _]. done.
Qed.

(** What a tick can do to the score and to [gameover]: nothing at all, or
    stop on a collision with the score kept, or test for the win a score
    that is the old one or five more. *)
Lemma logic_score_cases (flag : Z) (g g' : Game) (r1 r2 ns : Z) :
  logic flag g r1 r2 = Some (ns, g') ->
  g' = g \/
  (g_score g' = g_score g /\ g_gameover g' <> 0) \/
  ((g_score g' = g_score g \/ g_score g' = g_score g + 5) /\
   g_gameover g' = (if g_score g' =? 100 then -1 else 0)).
Proof.
  unfold logic. intros H.
  destruct (flag =? 0); [injection H as _ <-; by left|].
  destruct (move_snake (g_snake g) (g_length g) flag) as [snake|];
    [simpl in H|done].
  destruct (check_collision snake (g_length g)) as [c|]; [simpl in H|done].
  destruct (c =? 0) eqn:Hc; simpl in H.
  - apply Z.eqb_eq in Hc. subst c.
    destruct (Int.sub (g_length g) 1) as [h|]; [simpl in H|done].
    destruct (array_get snake h) as [hd|]; [simpl in H|done].
    right; right.
    destruct ((x hd =? g_fruitx g) && (y hd =? g_fruity g)).
    + match type of H with
      | (?m ≫= _) = Some _ => destruct m as [g2|] eqn:Hgrow; [simpl in H|done]
      end.
      apply grow_snake_score in Hgrow as [Hs Hg]. simpl in Hs, Hg.
      destruct (g_score g2 =? 100) eqn:E; injection H as _ <-; simpl;
        rewrite E; split; auto.
    + simpl in H.
      destruct (g_score g =? 100) eqn:E; injection H as _ <-; simpl;
        rewrite E; split; auto.
  - apply Z.eqb_neq in Hc. injection H as _ <-. right; left. simpl. done.
Qed.

(** The invariant of the loop: the score is a multiple of 5 between 0 and
    100, and below 100 as long as the game is not over. *)
Lemma reachable_score (s : Game * Z) :
  reachable s ->
  score_in_steps_of_5 (g_score (fst s)) /\
  (g_gameover (fst s) = 0 -> g_score (fst s) < 100).
Proof.
  unfold score_in_steps_of_5.
  induction 1 as [r1 r2 s Hr1 Hr2 Hinit | s s' Hreach IH Hstep].
  - unfold main_init in Hinit.
    destruct (fruits r1 r2) as [[fx fy]|]; [simpl in Hinit|done].
    repeat
      match type of Hinit with
      | (?m ≫= _) = Some _ => destruct m; [simpl in Hinit|done]
      end.
    injection Hinit as <-. simpl.
    split; [split; [lia|by exists 0]|lia].
  - destruct Hstep as [g flag stdin r1 r2 flag' stdin' ns g' Hgo _ _ _ _ Hlogic].
    simpl in *. destruct IH as [[Hrange [k Hk]] Hbelow].
    specialize (Hbelow Hgo).
    apply logic_score_cases in Hlogic as [->|[[Hs Hg]|[Hs Hg]]].
    + split; [split; [lia|by exists k]|lia].
    + rewrite Hs. split; [split; [lia|by exists k]|done].
    + assert (g_score g' <= 100) by lia.
      split; [split; [lia|]|].
      * destruct Hs as [->| ->]; [by exists k|exists (k + 1); lia].
      * rewrite Hg. destruct (Z.eqb_spec (g_score g') 100); lia.
Qed.

(** C10. In every state that the loop of [main] reaches from its initial
    state, the score is a multiple of 5, at least 0 and at most 100; so
    there the test [score == 100] of [logic] holds exactly when
    [score >= 100] does, and the score cannot step over the win. *)
Theorem reachable_score_multiple_of_5_up_to_100 (s : Game * Z) :
  reachable s ->
  score_in_steps_of_5 (g_score (fst s)) /\
  (g_score (fst s) =? 100) = (g_score (fst s) >=? 100).
Proof.
  intros [[Hrange Hdiv] _]%reachable_score.
  split; [done|].
  rewrite Z.geb_leb.
  destruct (Z.eqb_spec (g_score (fst s)) 100), (Z.leb_spec 100 (g_score (fst s)));
    lia || done.
Qed.

(** ** The loop of [main] stays within defined behaviour *)

Lemma input_flag_range (flag : Z) (stdin : list Z) :
  0 <= flag <= 4 ->
  fst (input flag stdin) = -1 \/ 0 <= fst (input flag stdin) <= 4.
Proof.
  intros Hflag. unfold input, getchar.
  destruct stdin as [|c1 [|c2 [|c3 rest]]];
    repeat match goal with
           | |- context [if ?b then _ else _] => destruct b
           end; simpl; lia.
Qed.

(** A tick entered in a well-formed running state returns, in a well-formed
    state. *)
Lemma logic_defined (flag flag' : Z) (g : Game) (r1 r2 : Z) :
  2 < WIDTH <= Int.MAX -> 2 < HEIGHT <= Int.MAX -> 21 <= LENGTH_SNAKE ->
  rand_ok r1 -> rand_ok r2 ->
  well_formed (g, flag) -> g_gameover g = 0 -> 0 <= flag' <= 4 ->
  exists ns g', logic flag' g r1 r2 = Some (ns, g') /\ well_formed (g', flag').
Proof.
  intros HW HH Hcap Hr1 Hr2 (Hlen & Hsc & Hrange & _ & Hrun) Hgo Hflag.
  simpl in Hlen, Hsc, Hrange, Hrun.
  destruct (Hrun Hgo) as (Hlt & hd & Hhd & Hx & Hy).
  assert (1 <= g_length g <= 20) as HL by lia.
  unfold logic. destruct (Z.eqb_spec flag' 0) as [->|Hne].
  { do 2 eexists. split; [reflexivity|].
    repeat split; simpl; try done; try lia; eauto. }
  destruct (move_snake_run (g_snake g) (g_length g) flag' hd)
    as (s & Hmove & Hlens & _ & Hhead & _); [int_lia|lia|done|done|done|lia|].
  rewrite Hmove. simpl.
  set (hd' := spec_offset flag' hd) in *.
  destruct (check_collision_run s (g_length g) hd')
    as (c & Hcc & Hc & Hwall & _ & Hnone); [int_lia|lia|done|].
  rewrite Hcc. simpl.
  destruct (Z.eqb_spec c 0) as [->|Hc0]; simpl.
  2:{ do 2 eexists. split; [reflexivity|].
      repeat split; simpl; try done; lia. }
  destruct (proj1 Hnone eq_refl) as [Hinside _].
  assert (Int.MIN < x hd' < Int.MAX /\ Int.MIN < y hd' < Int.MAX) as [Hx' Hy']
    by int_lia.
  rewrite sub_Some by int_lia. simpl. rewrite Hhead. simpl.
  destruct ((x hd' =? g_fruitx g) && (y hd' =? g_fruity g)).
  - destruct (grow_snake_run (set_gameover 0 (set_snake s g)) r1 r2)
      as (s2 & -> & Hlen2 & Hk); simpl; [done|done|done|done|int_lia|lia|int_lia|].
    simpl in Hlen2, Hk. simpl.
    assert (array_get s2 (g_length g + 1 - 1) = Some hd') as Hhead2.
    { rewrite array_get_pos by lia. rewrite Hk.
      rewrite decide_False by lia. rewrite decide_True by lia.
      rewrite <- Hhead, array_get_pos by lia. f_equal. lia. }
    destruct (Z.eqb_spec (g_score g + 5) 100);
      do 2 eexists; (split; [reflexivity|]);
      repeat split; simpl; try done; try lia; eauto.
  - simpl. destruct (Z.eqb_spec (g_score g) 100);
      do 2 eexists; (split; [reflexivity|]);
      repeat split; simpl; try done; try lia; eauto.
Qed.

(** Every state the loop reaches is well formed, as soon as the board has
    an interior and the array has room for the 21 segments of a won game. *)
Lemma reachable_well_formed (s : Game * Z) :
  2 < WIDTH <= Int.MAX -> 2 < HEIGHT <= Int.MAX -> 21 <= LENGTH_SNAKE ->
  reachable s -> well_formed s.
Proof.
  intros HW HH Hcap.
  induction 1 as [r1 r2 s Hr1 Hr2 Hinit | s s' Hreach IH Hstep].
  - rewrite main_init_run in Hinit by (done || lia).
    injection Hinit as <-.
    repeat split; simpl; try done; try lia.
    + rewrite length_insert, length_replicate. done.
    + exists (mkPoint (Z.quot WIDTH 2) (Z.quot HEIGHT 2)). split.
      * rewrite array_get_pos by lia. apply list_lookup_insert_eq.
        rewrite length_replicate. lia.
      * simpl.
        pose proof (Z.quot_pos WIDTH 2 ltac:(lia) ltac:(lia)).
        pose proof (Z.quot_pos HEIGHT 2 ltac:(lia) ltac:(lia)).
        pose proof (Z.quot_lt WIDTH 2 ltac:(lia) ltac:(lia)).
        pose proof (Z.quot_lt HEIGHT 2 ltac:(lia) ltac:(lia)).
        int_lia.
  - destruct Hstep as [g flag stdin r1 r2 flag' stdin' ns g' Hgo Hin Hq Hr1 Hr2 Hlogic].
    assert (0 <= flag' <= 4) as Hflag.
    { destruct IH as (_ & _ & _ & Hf & _). simpl in Hf.
      destruct (input_flag_range flag stdin Hf) as [E|E];
        rewrite Hin in E; simpl in E; [done|lia]. }
    destruct (logic_defined flag flag' g r1 r2) as (ns' & g'' & Hrun & Hwf);
      try done.
    rewrite Hlogic in Hrun. by injection Hrun as <- <-.
Qed.

(** X20. No tick of the loop runs into undefined behaviour: on a board with
    an interior and with an array of at least 21 points, from a reachable
    state with [gameover == 0], for the bytes [stdin] that are pending and
    the values [r1], [r2] that [rand()] returns, whatever they are, [logic]
    called with the flag that [input] has just set returns, unless the quit
    key broke the loop; the state it returns is the next state of the loop,
    and the snake never has more than 21 segments. *)
Lemma main_loop_defined (g : Game) (flag : Z) (stdin : list Z) (r1 r2 : Z) :
  2 < WIDTH <= Int.MAX -> 2 < HEIGHT <= Int.MAX -> 21 <= LENGTH_SNAKE ->
  rand_ok r1 -> rand_ok r2 ->
  reachable (g, flag) -> g_gameover g = 0 ->
  fst (input flag stdin) <> -1 ->
  1 <= g_length g <= 21 /\
  exists ns g',
    logic (fst (input flag stdin)) g r1 r2 = Some (ns, g') /\
    main_step (g, flag) (g', fst (input flag stdin)) /\
    reachable (g', fst (input flag stdin)).
Proof.
  intros HW HH Hcap Hr1 Hr2 Hreach Hgo Hq.
  pose proof (reachable_well_formed _ HW HH Hcap Hreach) as Hwf.
  assert (0 <= fst (input flag stdin) <= 4) as Hflag.
  { destruct Hwf as (_ & _ & _ & Hf & _). simpl in Hf.
    destruct (input_flag_range flag stdin Hf); [done|lia]. }
  destruct (logic_defined flag (fst (input flag stdin)) g r1 r2)
    as (ns & g' & Hrun & _); try done.
  split.
  - destruct Hwf as (_ & Hsc & Hrange & _). simpl in Hsc, Hrange. lia.
  - assert (main_step (g, flag) (g', fst (input flag stdin))) as Hstep.
    { apply (main_tick g flag stdin r1 r2 _ (snd (input flag stdin)) ns g');
        try done.
      by destruct (input flag stdin). }
    exists ns, g'. split; [done|]. split; [done|].
    by apply (reach_step (g, flag)).
Qed.

(** * More of the code *)

(** ** [input], on any bytes *)

Ltac input_cases flag stdin :=
  unfold input, getchar;
  destruct stdin as [|c1 [|c2 [|c3 rest]]];
  repeat match goal with
         | |- context [Z.eqb ?a ?b] => destruct (Z.eqb_spec a b); subst
         end; simpl.

(** X1. Whatever bytes are pending, [input] returns the old flag, -1 or a
    direction 1..4, and never the direction opposite to the old flag. *)
Theorem input_never_reverses (flag : Z) (stdin : list Z) :
  (fst (input flag stdin) = flag \/ fst (input flag stdin) = -1 \/
   1 <= fst (input flag stdin) <= 4) /\
  ~ reversed flag (fst (input flag stdin)).
Proof.
  input_cases flag stdin; unfold reversed, EOF in *; (split; [lia|lia]).
Qed.

(** X2. [input] returns -1 exactly when the first pending byte is 'x' or
    'X', or when the flag was -1 already and the pending bytes do not start
    with an arrow: an arrow read after the quit key takes the quit back, and
    a quit key that follows ESC is swallowed. *)
Theorem input_quit_iff (flag : Z) (stdin : list Z) :
  fst (input flag stdin) = -1 <->
  (exists rest, stdin = 120 :: rest \/ stdin = 88 :: rest) \/
  (flag = -1 /\ ~ exists a rest, stdin = arrow_bytes a ++ rest).
Proof.
  assert (forall (c1 c2 c3 : Z) (rest : list Z),
            (exists a rest', c1 :: c2 :: c3 :: rest = arrow_bytes a ++ rest') <->
            c1 = 27 /\ c2 = 91 /\ 65 <= c3 <= 68) as Harrow.
  { intros c1 c2 c3 rest. split.
    - intros (a & rest' & E). destruct a; injection E as -> -> -> _; lia.
    - intros (-> & -> & H3).
      assert (c3 = 65 \/ c3 = 66 \/ c3 = 67 \/ c3 = 68) as Hc by lia.
      destruct Hc as [-> | [-> | [-> | ->]]];
        [exists Up | exists Down | exists Right | exists Left];
        exists rest; reflexivity. }
  assert (forall l : list Z, (length l < 3)%nat ->
            ~ exists a rest', l = arrow_bytes a ++ rest') as Hshort.
  { intros l Hl (a & rest' & ->). destruct a; simpl in Hl; lia. }
  assert (forall (c : Z) (l : list Z),
            (exists rest, c :: l = 120 :: rest \/ c :: l = 88 :: rest) <->
            c = 120 \/ c = 88) as Hquit.
  { intros c l. split.
    - intros (rest & [E|E]); injection E as -> _; lia.
    - intros [-> | ->]; exists l; auto. }
  destruct stdin as [|c1 [|c2 [|c3 rest]]].
  - unfold input, getchar, EOF. simpl. split.
    + intros ->. right. split; [done|]. apply Hshort. simpl. lia.
    + intros [(rest & [E|E])|[-> _]]; done.
  - rewrite Hquit. unfold input, getchar, EOF.
    repeat match goal with
           | |- context [Z.eqb ?a ?b] => destruct (Z.eqb_spec a b); subst
           end; simpl; split; try lia; try (intros; left; lia);
      try (intros ->; right; split; [done|apply Hshort; simpl; lia]);
      intros [?|[-> _]]; lia || done.
  - rewrite Hquit. unfold input, getchar, EOF.
    repeat match goal with
           | |- context [Z.eqb ?a ?b] => destruct (Z.eqb_spec a b); subst
           end; simpl; split; try lia; try (intros; left; lia);
      try (intros ->; right; split; [done|apply Hshort; simpl; lia]);
      intros [?|[-> _]]; lia || done.
  - rewrite Hquit, Harrow. unfold input, getchar, EOF.
    repeat match goal with
           | |- context [Z.eqb ?a ?b] => destruct (Z.eqb_spec a b); subst
           end; simpl; split; try lia; try (intros; left; lia);
      try (intros ->; right; split; [done|lia]);
      try (intros [?|[-> ?]]; lia).
Qed.

(** X3. What [input] takes from the pending bytes, whatever the flag:
    exactly one byte when the first is not ESC (27); exactly two when ESC is
    followed by a byte other than '[' (91); exactly three when ESC '[' is
    followed by any byte, arrow or not; and all of them when nothing, ESC
    alone or ESC '[' alone is pending.  The bytes after those are left, in
    order. *)
Theorem input_bytes_consumed (flag : Z) :
  snd (input flag []) = [] /\
  (forall c rest, c <> 27 -> snd (input flag (c :: rest)) = rest) /\
  snd (input flag [27]) = [] /\
  (forall c rest, c <> 91 -> snd (input flag (27 :: c :: rest)) = rest) /\
  snd (input flag [27; 91]) = [] /\
  (forall c rest, snd (input flag (27 :: 91 :: c :: rest)) = rest).
Proof.
  unfold input, getchar.
  repeat split; try reflexivity; intros c rest; try intros Hc; simpl;
    repeat match goal with
           | |- context [Z.eqb ?a ?b] => destruct (Z.eqb_spec a b)
           end; simpl; done.
Qed.

(** ** [move_snake], [grow_snake] and [check_collision] at their limits *)

(** The shifting loop run up to the last slot of the array, or beyond,
    reads outside the array. *)
Lemma move_snake_loop_overrun (n : nat) :
  forall (i : nat) (snake : list Point),
    (0 < n)%nat -> (length snake <= i + n)%nat ->
    move_snake_loop n (Z.of_nat i) snake = None.
Proof.
  induction n as [|n IH]; intros i snake Hn Hlen; [lia|].
  simpl. destruct (Int.add (Z.of_nat i) 1) as [j|] eqn:Hj; [simpl|done].
  apply checked_inv in Hj as [-> _].
  replace (Z.of_nat i + 1) with (Z.of_nat (S i)) by lia.
  rewrite array_get_nat.
  destruct (snake !! S i) as [p|] eqn:Hp; [simpl|done].
  apply lookup_lt_Some in Hp.
  destruct (array_set snake (Z.of_nat i) p) as [s1|] eqn:Hset; [simpl|done].
  apply array_set_length in Hset.
  apply IH; [lia|]. rewrite Hset. lia.
Qed.

(** X4. When the snake fills its array (length L >= 1 equal to the capacity,
    or beyond it), [move_snake] reads [snake[L]] outside the array, whatever
    the flag: its loop runs to [i = L-1] and copies [snake[i+1]]. *)
Theorem move_snake_full_array_out_of_bounds
    (snake : list Point) (L flag : Z) :
  1 <= L -> Z.of_nat (length snake) <= L ->
  move_snake snake L flag = None.
Proof.
  intros HL Hcap. unfold move_snake.
  destruct (Int.sub L 1) as [h|]; [simpl|done].
  destruct (array_get snake h) as [temp|]; [simpl|done].
  pose proof (move_snake_loop_overrun (Z.to_nat L) 0 snake) as Hloop.
  change (Z.of_nat 0) with 0 in Hloop. rewrite Hloop by lia. done.
Qed.

(** X5. With a flag that is no direction (the [default] of the [switch]),
    [move_snake] still shifts: every slot i in [0, L-1] receives the old
    slot i+1, so the head slot L-1 ends up with whatever the slot after the
    snake held; the slots from L on are kept. *)
Theorem move_snake_without_direction
    (snake : list Point) (L flag : Z) :
  1 <= L <= Int.MAX -> L < Z.of_nat (length snake) ->
  ~ 1 <= flag <= 4 ->
  exists snake',
    move_snake snake L flag = Some snake' /\
    length snake' = length snake /\
    (forall i, 0 <= i <= L - 1 -> array_get snake' i = array_get snake (i + 1)) /\
    (forall i, L <= i -> array_get snake' i = array_get snake i).
Proof.
  intros HL Hcap Hflag. unfold move_snake.
  rewrite sub_Some by int_lia. simpl.
  rewrite array_get_pos by lia.
  destruct (lookup_lt_is_Some_2 snake (Z.to_nat (L - 1))) as [temp ->]; [lia|].
  simpl.
  destruct (move_snake_loop_spec (Z.to_nat L) 0 snake)
    as (s & Hrun & Hlen & Hk); [lia|lia|].
  change (Z.of_nat 0) with 0 in Hrun. rewrite Hrun. simpl.
  destruct (Z.eqb_spec flag 1); [lia|]. destruct (Z.eqb_spec flag 2); [lia|].
  destruct (Z.eqb_spec flag 3); [lia|]. destruct (Z.eqb_spec flag 4); [lia|].
  exists s. split; [done|]. split; [done|]. split.
  - intros i Hi. rewrite !array_get_pos by lia. rewrite Hk.
    rewrite decide_True by lia. f_equal. lia.
  - intros i Hi. rewrite !array_get_pos by lia. rewrite Hk.
    by rewrite decide_False by lia.
Qed.

(** X6. [grow_snake] has no bound check: when the snake of length L >= 1
    fills its array, the splice writes [snake[L]] outside the array. *)
Theorem grow_snake_full_array_out_of_bounds (g : Game) (r1 r2 : Z) :
  1 <= g_length g -> Z.of_nat (length (g_snake g)) <= g_length g ->
  grow_snake g r1 r2 = None.
Proof.
  intros HL Hcap. unfold grow_snake.
  destruct (array_get (g_snake g) 0) as [old|]; [simpl|done].
  destruct (fruits r1 r2) as [[fx fy]|]; [simpl|done].
  destruct (Int.add (g_score g) 5) as [sc|]; [simpl|done].
  destruct (Z.to_nat (g_length g)) as [|n] eqn:Hn; [lia|]. simpl.
  destruct (Int.sub (g_length g) 1) as [j|]; [simpl|done].
  destruct (array_get (g_snake g) j) as [p|]; [simpl|done].
  assert (array_set (g_snake g) (g_length g) p = None) as ->; [|done].
  unfold array_set.
  destruct (Z.ltb_spec (g_length g) (Z.of_nat (length (g_snake g)))); [lia|].
  by rewrite andb_false_r.
Qed.

(** The scan of [check_collision] returns 0 or 1. *)
Lemma check_collision_loop_codes (n : nat) :
  forall (i : Z) (snake : list Point) (L c : Z),
    check_collision_loop n i snake L = Some c -> c = 0 \/ c = 1.
Proof.
  induction n as [|n IH]; intros i snake L c H; simpl in H.
  - injection H as <-. by left.
  - destruct (Int.sub L 1) as [h|]; [simpl in H|done].
    destruct (array_get snake h) as [hd|]; [simpl in H|done].
    destruct (array_get snake i) as [p|]; [simpl in H|done].
    destruct ((x hd =? x p) && (y hd =? y p)).
    + injection H as <-. by right.
    + destruct (Int.add i 1) as [j|]; [simpl in H|done]. eauto.
Qed.

Lemma check_collision_codes (snake : list Point) (L c : Z) :
  check_collision snake L = Some c -> c = 0 \/ c = 1 \/ c = 2.
Proof.
  unfold check_collision. intros H.
  destruct (Int.sub L 1) as [h|]; [simpl in H|done].
  destruct (array_get snake h) as [hd|]; [simpl in H|done].
  destruct ((x hd <=? 0) || (x hd >=? HEIGHT - 1) || (y hd <=? 0)
            || (y hd >=? WIDTH - 1)).
  - injection H as <-. auto.
  - apply check_collision_loop_codes in H. tauto.
Qed.

(** X7. [check_collision] is defined exactly for a length between 1 and the
    capacity of the array (length 0 reads [snake[-1]]), and then returns 0,
    1 or 2. *)
Theorem check_collision_defined_iff (snake : list Point) (L : Z) :
  Int.MIN < L <= Int.MAX ->
  (is_Some (check_collision snake L) <-> 1 <= L <= Z.of_nat (length snake)) /\
  (forall c, check_collision snake L = Some c -> c = 0 \/ c = 1 \/ c = 2).
Proof.
  intros HL. split; [|apply check_collision_codes]. split.
  - intros [c H]. unfold check_collision in H.
    rewrite sub_Some in H by int_lia. simpl in H.
    destruct (array_get snake (L - 1)) as [hd|] eqn:Hhd; [|done].
    apply array_get_inv in Hhd as [Hhd _]. lia.
  - intros HL'.
    destruct (lookup_lt_is_Some_2 snake (Z.to_nat (L - 1))) as [hd Hhd]; [lia|].
    destruct (check_collision_run snake L hd) as (c & -> & _); [lia|lia| |done].
    by rewrite array_get_pos by lia.
Qed.

(** The offset of the specification moves the point. *)
Lemma spec_offset_moves (flag : Z) (p : Point) : spec_offset flag p <> p.
Proof.
  unfold spec_offset. destruct p as [a b]. simpl.
  repeat match goal with
         | |- context [Z.eqb ?u ?v] => destruct (Z.eqb u v)
         end; intros [=]; lia.
Qed.

(** X8. A move followed by the collision test, read on the snake as it was
    before the move: the result is 2 when the cell the head steps on is a
    wall cell, 1 when it is no wall cell and one of the old segments of
    index 1 to L-2 lies on it, 0 otherwise.  The old tail (index 0) does
    not count: the head may step on the cell the tail leaves, and a snake
    of one or two segments never hits itself. *)
Theorem move_then_check_collision
    (snake : list Point) (L flag : Z) (hd : Point) :
  1 <= L <= Int.MAX ->
  L < Z.of_nat (length snake) ->
  array_get snake (L - 1) = Some hd ->
  Int.MIN < x hd < Int.MAX -> Int.MIN < y hd < Int.MAX ->
  1 <= flag <= 4 ->
  let hd' := spec_offset flag hd in
  let body := exists i, 1 <= i <= L - 2 /\ array_get snake i = Some hd' in
  exists snake' c,
    move_snake snake L flag = Some snake' /\
    check_collision snake' L = Some c /\
    (c = 2 <-> wall hd') /\
    (c = 1 <-> ~ wall hd' /\ body) /\
    (c = 0 <-> ~ wall hd' /\ ~ body).
Proof.
  intros HL Hcap Hhd Hx Hy Hflag hd' body.
  destruct (move_snake_run snake L flag hd)
    as (s & Hmove & Hlen & Hshift & Hhead & _); [done..|].
  fold hd' in Hhead.
  destruct (check_collision_run s L hd')
    as (c & Hcc & _ & H2 & H1 & H0); [done|lia|done|].
  assert ((exists i, 0 <= i <= L - 2 /\ array_get s i = Some hd') <-> body)
    as Hbody.
  { unfold body. split.
    - intros (i & Hi & Hget). rewrite Hshift in Hget by lia.
      exists (i + 1). split; [|done].
      destruct (Z.eq_dec (i + 1) (L - 1)) as [E|]; [|lia].
      rewrite E, Hhd in Hget. injection Hget as Hget.
      symmetry in Hget. by apply spec_offset_moves in Hget.
    - intros (i & Hi & Hget). exists (i - 1). split; [lia|].
      rewrite Hshift by lia. by replace (i - 1 + 1) with i by lia. }
  exists s, c. split; [done|]. split; [done|].
  unfold wall. rewrite <- Hbody. tauto.
Qed.

(** ** What a tick changes *)

Lemma grow_snake_loop_length (n : nat) :
  forall (i : Z) (snake snake' : list Point),
    grow_snake_loop n i snake = Some snake' -> length snake' = length snake.
Proof.
  induction n as [|n IH]; intros i snake snake' H; simpl in H.
  - by injection H as <-.
  - destruct (Int.sub i 1) as [j|]; [simpl in H|done].
    destruct (array_get snake j) as [p|]; [simpl in H|done].
    destruct (array_set snake i p) as [s1|] eqn:Hset; [simpl in H|done].
    rewrite (IH _ _ _ H). by apply array_set_length in Hset.
Qed.

Lemma grow_snake_loop_room (n : nat) (i : Z) (snake snake' : list Point) :
  grow_snake_loop (S n) i snake = Some snake' ->
  0 <= i < Z.of_nat (length snake).
Proof.
  simpl. intros H.
  destruct (Int.sub i 1) as [j|]; [simpl in H|done].
  destruct (array_get snake j) as [p|]; [simpl in H|done].
  destruct (array_set snake i p) as [s1|] eqn:Hset; [|done].
  by apply array_set_inv in Hset as [? _].
Qed.

(** A call of [grow_snake] that returns, read backwards. *)
Lemma grow_snake_inv (g g' : Game) (r1 r2 : Z) :
  grow_snake g r1 r2 = Some g' ->
  g_length g' = g_length g + 1 /\
  g_score g' = g_score g + 5 /\
  g_gameover g' = g_gameover g /\
  length (g_snake g') = length (g_snake g) /\
  fruits r1 r2 = Some (g_fruitx g', g_fruity g') /\
  (forall hd, array_get (g_snake g) (g_length g - 1) = Some hd ->
              array_get (g_snake g') (g_length g' - 1) = Some hd).
Proof.
  unfold grow_snake. intros H.
  destruct (array_get (g_snake g) 0) as [old|]; [simpl in H|done].
  destruct (fruits r1 r2) as [[fx fy]|]; [simpl in H|done].
  destruct (Int.add (g_score g) 5) as [sc|] eqn:Hsc; [simpl in H|done].
  destruct (grow_snake_loop (Z.to_nat (g_length g)) (g_length g) (g_snake g))
    as [s1|] eqn:Hloop; [simpl in H|done].
  destruct (array_set s1 0 old) as [s2|] eqn:Hset; [simpl in H|done].
  destruct (Int.add (g_length g) 1) as [len|] eqn:Hlen; [simpl in H|done].
  injection H as <-. simpl.
  apply checked_inv in Hsc as [-> _]. apply checked_inv in Hlen as [-> Hmax].
  pose proof (grow_snake_loop_length _ _ _ _ Hloop) as Hl1.
  pose proof (array_set_inv _ _ _ _ Hset) as [_ ->].
  repeat split; [by rewrite length_insert|].
  intros hd Hhd. apply array_get_inv in Hhd as [HL Hhd].
  destruct (Z.to_nat (g_length g)) as [|n] eqn:Hn; [lia|].
  pose proof (grow_snake_loop_room _ _ _ _ Hloop) as Hroom.
  destruct (grow_snake_loop_spec (S n) (S n) (g_snake g))
    as (s1' & Hrun & _ & Hk); [lia|lia|int_lia|].
  replace (Z.of_nat (S n)) with (g_length g) in Hrun by lia.
  rewrite Hloop in Hrun. injection Hrun as <-.
  rewrite array_get_pos by lia.
  replace (Z.to_nat (g_length g + 1 - 1)) with (S n) by lia.
  change (Z.to_nat 0) with 0%nat.
  rewrite list_lookup_insert_ne by lia. rewrite Hk.
  rewrite decide_True by lia. rewrite <- Hhd. f_equal. lia.
Qed.

(** A tick that moves and returns, read backwards: the move and the
    collision test returned, and the new state is one of three. *)
Lemma logic_inv (flag : Z) (g g' : Game) (r1 r2 ns : Z) :
  logic flag g r1 r2 = Some (ns, g') -> flag <> 0 ->
  exists (snake : list Point) (c : Z) (hd : Point),
    move_snake (g_snake g) (g_length g) flag = Some snake /\
    check_collision snake (g_length g) = Some c /\
    array_get snake (g_length g - 1) = Some hd /\
    let g1 := set_gameover c (set_snake snake g) in
    ((c <> 0 /\ g' = g1) \/
     (c = 0 /\
      exists g2,
        (if (x hd =? g_fruitx g) && (y hd =? g_fruity g)
         then grow_snake g1 r1 r2 = Some g2 else g2 = g1) /\
        g' = if g_score g2 =? 100 then set_gameover (-1) g2 else g2)).
Proof.
  unfold logic. intros H Hflag.
  destruct (Z.eqb_spec flag 0) as [|_]; [done|].
  destruct (move_snake (g_snake g) (g_length g) flag) as [snake|];
    [simpl in H|done].
  destruct (check_collision snake (g_length g)) as [c|] eqn:Hcc;
    [simpl in H|done].
  assert (exists hd, array_get snake (g_length g - 1) = Some hd /\
                     Int.sub (g_length g) 1 = Some (g_length g - 1))
    as (hd & Hhd & Hsub).
  { unfold check_collision in Hcc.
    destruct (Int.sub (g_length g) 1) as [h|] eqn:Hh; [simpl in Hcc|done].
    apply checked_inv in Hh as [-> _].
    destruct (array_get snake (g_length g - 1)) as [hd|]; [|done]. eauto. }
  exists snake, c, hd. split; [done|]. split; [done|]. split; [done|].
  destruct (c =? 0) eqn:Hc; simpl in H.
  - apply Z.eqb_eq in Hc. subst c. right. split; [done|].
    rewrite Hsub in H. simpl in H. rewrite Hhd in H. simpl in H.
    destruct ((x hd =? g_fruitx g) && (y hd =? g_fruity g)).
    + match type of H with
      | (?m ≫= _) = Some _ => destruct m as [g2|] eqn:Hgrow; [simpl in H|done]
      end.
      exists g2. split; [done|].
      destruct (g_score g2 =? 100); by injection H as _ <-.
    + simpl in H. eexists. split; [reflexivity|]. simpl.
      destruct (g_score g =? 100); by injection H as _ <-.
  - apply Z.eqb_neq in Hc. left. split; [done|]. by injection H as _ <-.
Qed.

(** What a tick that returns has changed. *)
Lemma logic_effect (flag : Z) (g g' : Game) (r1 r2 ns : Z) :
  logic flag g r1 r2 = Some (ns, g') ->
  length (g_snake g') = length (g_snake g) /\
  (flag <> 0 ->
   g_gameover g' = -1 \/ g_gameover g' = 0 \/
   g_gameover g' = 1 \/ g_gameover g' = 2) /\
  ((g_length g' = g_length g /\ g_score g' = g_score g /\
    g_fruitx g' = g_fruitx g /\ g_fruity g' = g_fruity g) \/
   (g_length g' = g_length g + 1 /\ g_score g' = g_score g + 5 /\
    fruits r1 r2 = Some (g_fruitx g', g_fruity g') /\
    (g_gameover g' = 0 \/ g_gameover g' = -1))).
Proof.
  intros H. destruct (Z.eq_dec flag 0) as [->|Hflag].
  { injection H as _ <-. split; [done|]. split; [done|]. by left. }
  destruct (logic_inv _ _ _ _ _ _ H Hflag)
    as (snake & c & hd & Hmove & Hcc & Hhd & Hcases).
  apply move_snake_length in Hmove. apply check_collision_codes in Hcc.
  simpl in Hcases. destruct Hcases as [[Hc ->]|[-> (g2 & Hg2 & ->)]].
  - simpl. split; [done|]. split; [intros _; lia|]. by left.
  - destruct ((x hd =? g_fruitx g) && (y hd =? g_fruity g)).
    + apply grow_snake_inv in Hg2 as (Hl & Hs & Hg & Hlen & Hf & _).
      simpl in Hl, Hs, Hg, Hlen.
      destruct (g_score g2 =? 100); simpl;
        (split; [congruence|]); (split; [intros _; lia|]);
        right; repeat split; try done; lia.
    + subst g2. simpl.
      destruct (g_score g =? 100); simpl;
        (split; [done|]); (split; [intros _; lia|]); by left.
Qed.

(** X9. A tick changes the length and the score together or not at all:
    either length, score and fruit are kept, or the length grows by 1, the
    score by 5, the game is not lost and the fruit is drawn anew.  The array
    keeps its size, and a tick that moves leaves [gameover] at -1, 0, 1 or
    2, the four cases of the [switch] that ends [main]. *)
Theorem logic_changes (flag : Z) (g g' : Game) (r1 r2 ns : Z) :
  logic flag g r1 r2 = Some (ns, g') ->
  length (g_snake g') = length (g_snake g) /\
  (flag <> 0 ->
   g_gameover g' = -1 \/ g_gameover g' = 0 \/
   g_gameover g' = 1 \/ g_gameover g' = 2) /\
  ((g_length g' = g_length g /\ g_score g' = g_score g /\
    g_fruitx g' = g_fruitx g /\ g_fruity g' = g_fruity g) \/
   (g_length g' = g_length g + 1 /\ g_score g' = g_score g + 5 /\
    fruits r1 r2 = Some (g_fruitx g', g_fruity g') /\
    (g_gameover g' = 0 \/ g_gameover g' = -1))).
Proof. exact (logic_effect flag g g' r1 r2 ns). Qed.

(** ** The states of the loop of [main] *)

Lemma main_init_inv (r1 r2 : Z) (s : Game * Z) :
  main_init r1 r2 = Some s ->
  length (g_snake (fst s)) = Z.to_nat LENGTH_SNAKE /\
  g_length (fst s) = 1 /\ g_gameover (fst s) = 0 /\ g_score (fst s) = 0 /\
  snd s = 0.
Proof.
  unfold main_init. intros H.
  destruct (fruits r1 r2) as [[fx fy]|]; [simpl in H|done].
  destruct (array_get _ 0) as [p|]; [simpl in H|done].
  destruct (array_set _ 0 _) as [s1|] eqn:H1; [simpl in H|done].
  destruct (array_get s1 0) as [p'|]; [simpl in H|done].
  destruct (array_set s1 0 _) as [s2|] eqn:H2; [simpl in H|done].
  injection H as <-. simpl.
  apply array_set_length in H1, H2.
  rewrite H2, H1, length_replicate. done.
Qed.

(** The shape of every state of the loop. *)
Lemma reachable_shape (s : Game * Z) :
  reachable s ->
  length (g_snake (fst s)) = Z.to_nat LENGTH_SNAKE /\
  g_score (fst s) = 5 * (g_length (fst s) - 1) /\
  (g_gameover (fst s) = -1 \/ g_gameover (fst s) = 0 \/
   g_gameover (fst s) = 1 \/ g_gameover (fst s) = 2) /\
  (g_gameover (fst s) = -1 <-> g_score (fst s) = 100) /\
  0 <= snd s <= 4.
Proof.
  intros Hreach. pose proof (reachable_score s Hreach) as [[Hrange _] Hlt].
  revert Hrange Hlt.
  induction Hreach as [r1 r2 s Hr1 Hr2 Hinit | s s' Hreach IH Hstep].
  - apply main_init_inv in Hinit as (Hlen & HL & Hg & Hs & Hf).
    intros _ _. rewrite Hlen, HL, Hg, Hs, Hf. repeat split; lia.
  - intros Hrange' Hlt'.
    pose proof (reachable_score s Hreach) as [[Hrange _] Hlt].
    specialize (IH Hrange Hlt) as (Hlen & Hsc & _ & _ & Hf).
    destruct Hstep as [g flag stdin r1 r2 flag' stdin' ns g' Hgo Hin Hq _ _ Hlogic].
    simpl in *. specialize (Hlt Hgo).
    assert (0 <= flag' <= 4) as Hflag'.
    { destruct (input_flag_range flag stdin Hf) as [E|E];
        rewrite Hin in E; simpl in E; [done|lia]. }
    destruct (Z.eq_dec flag' 0) as [->|Hne].
    { injection Hlogic as _ <-. repeat split; try done; lia. }
    pose proof (logic_effect _ _ _ _ _ _ Hlogic) as (Hlen' & Hcodes & Hch).
    specialize (Hcodes Hne).
    destruct (logic_inv _ _ _ _ _ _ Hlogic Hne)
      as (snake & c & hd & _ & Hcc & _ & Hcases).
    apply check_collision_codes in Hcc. simpl in Hcases.
    split; [congruence|]. split; [lia|]. split; [done|]. split; [|done].
    destruct Hcases as [[Hc ->]|[-> (g2 & Hg2 & ->)]].
    + simpl. lia.
    + destruct (Z.eqb_spec (g_score g2) 100) as [E|E]; simpl; [done|].
      assert (g_gameover g2 = 0) as ->; [|lia].
      destruct ((x hd =? g_fruitx g) && (y hd =? g_fruity g)).
      * by apply grow_snake_inv in Hg2 as (_ & _ & -> & _).
      * by subst g2.
Qed.

(** X10. In every state of the loop of [main] the score is five times the
    number of segments beyond the first, the snake has between 1 and 21
    segments, the array has its declared size and the flag is 0 or a
    direction. *)
Theorem reachable_length_follows_score (s : Game * Z) :
  reachable s ->
  g_score (fst s) = 5 * (g_length (fst s) - 1) /\
  1 <= g_length (fst s) <= 21 /\
  length (g_snake (fst s)) = Z.to_nat LENGTH_SNAKE /\
  0 <= snd s <= 4.
Proof.
  intros Hreach.
  pose proof (reachable_score s Hreach) as [[Hrange _] _].
  pose proof (reachable_shape s Hreach) as (Hlen & Hsc & _ & _ & Hf).
  repeat split; try done; lia.
Qed.

(** A tick that moves and leaves the game running leaves the head strictly
    inside the walls. *)
Lemma logic_head_inside (flag : Z) (g g' : Game) (r1 r2 ns : Z) :
  logic flag g r1 r2 = Some (ns, g') -> flag <> 0 -> g_gameover g' = 0 ->
  exists hd,
    array_get (g_snake g') (g_length g' - 1) = Some hd /\ ~ wall hd.
Proof.
  intros H Hflag Hgo.
  destruct (logic_inv _ _ _ _ _ _ H Hflag)
    as (snake & c & hd & _ & Hcc & Hhd & Hcases).
  simpl in Hcases. destruct Hcases as [[Hc ->]|[-> (g2 & Hg2 & ->)]]; [done|].
  assert (~ wall hd) as Hin.
  { unfold check_collision in Hcc.
    destruct (Int.sub (g_length g) 1) as [h|] eqn:E; [simpl in Hcc|done].
    apply checked_inv in E as [-> _]. rewrite Hhd in Hcc. simpl in Hcc.
    destruct ((x hd <=? 0) || (x hd >=? HEIGHT - 1) || (y hd <=? 0)
              || (y hd >=? WIDTH - 1)) eqn:Hw; [done|].
    unfold wall. rewrite !orb_false_iff in Hw. rewrite !Z.leb_gt in Hw.
    destruct Hw as [[[? H2] ?] H4].
    rewrite Z.geb_leb, Z.leb_gt in H2, H4. lia. }
  exists hd. split; [|done].
  assert (array_get (g_snake g2) (g_length g2 - 1) = Some hd) as Hhd2.
  { destruct ((x hd =? g_fruitx g) && (y hd =? g_fruity g)).
    - apply grow_snake_inv in Hg2 as (_ & _ & _ & _ & _ & Hkeep).
      by apply Hkeep.
    - by subst g2. }
  by destruct (g_score g2 =? 100).
Qed.

(** X11. While the game runs and the snake has moved (the flag is not 0),
    the head of the snake is strictly inside the walls that
    [check_collision] tests: its row is between 1 and HEIGHT-2 and its
    column between 1 and WIDTH-2. *)
Theorem reachable_head_inside_walls (g : Game) (flag : Z) :
  reachable (g, flag) -> g_gameover g = 0 -> flag <> 0 ->
  exists hd,
    array_get (g_snake g) (g_length g - 1) = Some hd /\
    1 <= x hd <= HEIGHT - 2 /\ 1 <= y hd <= WIDTH - 2.
Proof.
  intros Hreach Hgo Hflag.
  assert (exists hd, array_get (g_snake g) (g_length g - 1) = Some hd /\
                     ~ wall hd) as (hd & Hhd & Hin).
  { inversion Hreach as [r1 r2 s Hr1 Hr2 Hinit | s s' Hprev Hstep]; subst.
    - apply main_init_inv in Hinit as (_ & _ & _ & _ & Hf). simpl in Hf. done.
    - inversion Hstep; subst. eapply logic_head_inside; eauto. }
  exists hd. split; [done|]. unfold wall in Hin. lia.
Qed.

(** X12. When [main] leaves its loop, it prints the winner's message exactly
    when the score is 100, and the plain "Game Over" exactly when the loop
    was left by the quit key; otherwise it names the collision. *)
Theorem main_exit_message (s : Game * Z) :
  main_exit s ->
  (end_message (g_gameover (fst s))
   = [String "027" "[0;32m"; "You are a winner" +:+ String "010" ""]
   <-> g_score (fst s) = 100) /\
  (end_message (g_gameover (fst s)) = ["Game Over" +:+ String "010" ""]
   <-> snd s = -1) /\
  (snd s <> -1 -> g_score (fst s) <> 100 ->
   g_gameover (fst s) = 1 \/ g_gameover (fst s) = 2).
Proof.
  intros [s' Hreach Hgo | g flag stdin stdin' Hreach Hgo Hin].
  - pose proof (reachable_shape s' Hreach) as (_ & _ & Hcodes & Hwin & Hf).
    destruct Hcodes as [E|[E|[E|E]]]; [|done| |];
      rewrite E in *; (split; [|split]); try (split; [|lia]);
        try (split; intros; [tauto|done]); try done; try lia;
        try (intros; exfalso; tauto).
  - pose proof (reachable_score _ Hreach) as [_ Hlt].
    simpl in *. specialize (Hlt Hgo). rewrite Hgo.
    split; [|split]; [split; [done|lia]|done|done].
Qed.

(** ** [fruits] and the start of [main] *)

(** X13. On a board with an interior, the coordinates [fruits] can return
    are exactly the pairs with [fruitx] in [1, WIDTH-2] and [fruity] in
    [1, HEIGHT-2]: every such pair is returned for some values of [rand()],
    and no other pair ever is. *)
Theorem fruits_reaches_exactly (a b : Z) :
  2 < WIDTH <= Int.MAX -> 2 < HEIGHT <= Int.MAX ->
  (exists r1 r2, rand_ok r1 /\ rand_ok r2 /\ fruits r1 r2 = Some (a, b))
  <-> 1 <= a <= WIDTH - 2 /\ 1 <= b <= HEIGHT - 2.
Proof.
  intros HW HH. split.
  - intros (r1 & r2 & Hr1 & Hr2 & H).
    destruct (fruits_range r1 r2) as (E & Ha & Hb); [done..|].
    rewrite E in H. injection H as <- <-. done.
  - intros [Ha Hb]. exists (a - 1), (b - 1).
    assert (rand_ok (a - 1)) as Hr1 by (unfold rand_ok; int_lia).
    assert (rand_ok (b - 1)) as Hr2 by (unfold rand_ok; int_lia).
    split; [done|]. split; [done|].
    destruct (fruits_range (a - 1) (b - 1)) as (-> & _); [done..|].
    rewrite !Z.rem_small by lia. f_equal. f_equal; lia.
Qed.

(** X14. [main] reaches its loop exactly when the board has an interior in
    both directions and the array has at least one slot: with WIDTH = 2 or
    HEIGHT = 2 [fruits] divides by zero, and with LENGTH_SNAKE below 1 the
    store into [snake[0]] is outside the array. *)
Theorem main_init_defined_iff (r1 r2 : Z) :
  2 <= WIDTH <= Int.MAX -> 2 <= HEIGHT <= Int.MAX ->
  rand_ok r1 -> rand_ok r2 ->
  is_Some (main_init r1 r2) <-> 2 < WIDTH /\ 2 < HEIGHT /\ 1 <= LENGTH_SNAKE.
Proof.
  intros HW HH Hr1 Hr2. split.
  - intros [s H]. unfold main_init in H.
    destruct (fruits r1 r2) as [[fx fy]|] eqn:Hf; [simpl in H|done].
    assert (WIDTH <> 2 /\ HEIGHT <> 2) as [HW2 HH2].
    { unfold fruits, Int.rem in Hf. split; intros E; rewrite E in Hf.
      - done.
      - destruct (if WIDTH - 2 =? 0 then None else _) as [a|]; [simpl in Hf|done].
        destruct (Int.add a 1); [simpl in Hf|done]. done. }
    destruct (array_get _ 0) as [p|] eqn:Hget; [|done].
    apply array_get_inv in Hget as [Hget _].
    rewrite length_replicate in Hget. lia.
  - intros (HW' & HH' & HL). rewrite main_init_run by (done || lia). eauto.
Qed.

(** ** [draw_border] *)

Lemma draw_border_row_length (n : nat) (i j : Z) :
  length (draw_border_row n i j) = n.
Proof. revert j. induction n as [|n IH]; intros j; simpl; [done|by rewrite IH]. Qed.

Lemma draw_border_row_lookup (n : nat) (i : Z) :
  forall (j : Z) (k : nat),
    (k < n)%nat ->
    draw_border_row n i j !! k = Some (border_char i (j + Z.of_nat k)).
Proof.
  induction n as [|n IH]; intros j k Hk; [lia|].
  destruct k as [|k]; simpl.
  - by rewrite Z.add_0_r.
  - rewrite IH by lia. do 2 f_equal. lia.
Qed.

Lemma draw_border_rows_length (n : nat) (i : Z) :
  length (draw_border_rows n i) = (n * S (Z.to_nat WIDTH))%nat.
Proof.
  revert i. induction n as [|n IH]; intros i; simpl; [done|].
  rewrite length_app, draw_border_row_length. simpl. rewrite IH. lia.
Qed.

(** The [k]-th character of the [r]-th line printed. *)
Lemma draw_border_rows_lookup (n : nat) :
  forall (i : Z) (r k : nat),
    (r < n)%nat -> (k <= Z.to_nat WIDTH)%nat ->
    draw_border_rows n i !! (r * S (Z.to_nat WIDTH) + k)%nat =
    Some (if decide (k = Z.to_nat WIDTH) then "010"%char
          else border_char (i + Z.of_nat r) (Z.of_nat k)).
Proof.
  induction n as [|n IH]; intros i r k Hr Hk; [lia|].
  simpl. destruct r as [|r].
  - simpl. rewrite Z.add_0_r. case_decide as E.
    + subst k. rewrite lookup_app_r by (rewrite draw_border_row_length; lia).
      rewrite draw_border_row_length, Nat.sub_diag. done.
    + rewrite lookup_app_l by (rewrite draw_border_row_length; lia).
      rewrite draw_border_row_lookup by lia. by rewrite Z.add_0_l.
  - rewrite lookup_app_r by (rewrite draw_border_row_length; lia).
    rewrite draw_border_row_length.
    replace (S r * S (Z.to_nat WIDTH) + k - Z.to_nat WIDTH)%nat
      with (S (r * S (Z.to_nat WIDTH) + k)) by lia.
    simpl. rewrite IH by lia.
    replace (i + 1 + Z.of_nat r) with (i + Z.of_nat (S r)) by lia. done.
Qed.

(** The character printed for row [i] and column [j] of the grid. *)
Lemma draw_border_cell (i j : Z) :
  0 <= i < HEIGHT -> 0 <= j < WIDTH ->
  draw_border !! Z.to_nat (i * (WIDTH + 1) + j) = Some (border_char i j).
Proof.
  intros Hi Hj. unfold draw_border.
  replace (Z.to_nat (i * (WIDTH + 1) + j))
    with (Z.to_nat i * S (Z.to_nat WIDTH) + Z.to_nat j)%nat by nia.
  rewrite draw_border_rows_lookup by lia.
  rewrite decide_False by lia. rewrite Z.add_0_l, !Z2Nat.id by lia. done.
Qed.

(** X15. [draw_border] prints HEIGHT lines of WIDTH characters, each ended
    by a newline.  The character of line i, column j is '#' when i = 0,
    i = WIDTH-1, j = 0 or j = HEIGHT-1, and a blank otherwise: the line
    index is compared with WIDTH and the column index with HEIGHT. *)
Theorem draw_border_grid (i j : Z) :
  0 <= i < HEIGHT -> 0 <= j < WIDTH ->
  length draw_border = Z.to_nat (HEIGHT * (WIDTH + 1)) /\
  draw_border !! Z.to_nat (i * (WIDTH + 1) + WIDTH) = Some "010"%char /\
  (draw_border !! Z.to_nat (i * (WIDTH + 1) + j) = Some "#"%char
   <-> i = 0 \/ i = WIDTH - 1 \/ j = 0 \/ j = HEIGHT - 1) /\
  (draw_border !! Z.to_nat (i * (WIDTH + 1) + j) = Some " "%char
   <-> ~ (i = 0 \/ i = WIDTH - 1 \/ j = 0 \/ j = HEIGHT - 1)).
Proof.
  intros Hi Hj. split; [|split].
  - unfold draw_border. rewrite draw_border_rows_length. nia.
  - unfold draw_border.
    replace (Z.to_nat (i * (WIDTH + 1) + WIDTH))
      with (Z.to_nat i * S (Z.to_nat WIDTH) + Z.to_nat WIDTH)%nat by nia.
    rewrite draw_border_rows_lookup by lia. by rewrite decide_True.
  - rewrite draw_border_cell by done. unfold border_char.
    destruct (Z.eqb_spec i 0), (Z.eqb_spec i (WIDTH - 1)),
      (Z.eqb_spec j 0), (Z.eqb_spec j (HEIGHT - 1)); simpl;
      split; split; intros; try done; try lia; try tauto.
Qed.

(** X16. On a square board (WIDTH = HEIGHT) the border drawn is the wall
    tested: [draw_border] prints '#' for row i and column j exactly when
    [check_collision] reports the wall for a head at (i, j). *)
Theorem draw_border_is_the_wall_when_square (i j : Z) :
  WIDTH = HEIGHT ->
  0 <= i < HEIGHT -> 0 <= j < WIDTH ->
  (draw_border !! Z.to_nat (i * (WIDTH + 1) + j) = Some "#"%char
   <-> check_collision [mkPoint i j] 1 = Some 2) /\
  (draw_border !! Z.to_nat (i * (WIDTH + 1) + j) = Some " "%char
   <-> check_collision [mkPoint i j] 1 = Some 0).
Proof.
  intros Hsq Hi Hj. rewrite draw_border_cell by done.
  unfold border_char, check_collision. simpl.
  destruct (Z.eqb_spec i 0), (Z.eqb_spec i (WIDTH - 1)),
    (Z.eqb_spec j 0), (Z.eqb_spec j (HEIGHT - 1)),
    (Z.leb_spec (x (mkPoint i j)) 0), (Z.leb_spec (HEIGHT - 1) (x (mkPoint i j))),
    (Z.leb_spec (y (mkPoint i j)) 0), (Z.leb_spec (WIDTH - 1) (y (mkPoint i j)));
    simpl in *; rewrite ?Z.geb_leb;
    repeat match goal with
           | |- context [Z.leb ?u ?v] => destruct (Z.leb_spec u v)
           end; simpl; try lia; split; split; intros; done.
Qed.

(** X17. On a board wider than high a part of the wall is not drawn: with
    1 < HEIGHT < WIDTH the last line of the grid (row HEIGHT-1) is blank
    outside columns 0 and HEIGHT-1, although [check_collision] reports the
    wall all along that row. *)
Theorem draw_border_misses_the_bottom_wall_when_wide (k : Z) :
  1 < HEIGHT < WIDTH -> 0 < k < WIDTH -> k <> HEIGHT - 1 ->
  draw_border !! Z.to_nat ((HEIGHT - 1) * (WIDTH + 1) + k) = Some " "%char /\
  check_collision [mkPoint (HEIGHT - 1) k] 1 = Some 2.
Proof.
  intros Hb Hk Hne. rewrite draw_border_cell by lia. split.
  - unfold border_char.
    destruct (Z.eqb_spec (HEIGHT - 1) 0), (Z.eqb_spec (HEIGHT - 1) (WIDTH - 1)),
      (Z.eqb_spec k 0), (Z.eqb_spec k (HEIGHT - 1)); simpl; done || lia.
  - unfold check_collision. simpl.
    destruct (Z.leb_spec (HEIGHT - 1) 0); [lia|]. simpl.
    rewrite Z.geb_leb. by rewrite Z.leb_refl.
Qed.

(** The same on a board higher than wide, for the last column. *)
Lemma draw_border_misses_the_right_wall_when_tall (k : Z) :
  1 < WIDTH < HEIGHT -> 0 < k < HEIGHT -> k <> WIDTH - 1 ->
  draw_border !! Z.to_nat (k * (WIDTH + 1) + (WIDTH - 1)) = Some " "%char /\
  check_collision [mkPoint k (WIDTH - 1)] 1 = Some 2.
Proof.
  intros Hb Hk Hne. rewrite draw_border_cell by lia. split.
  - unfold border_char.
    destruct (Z.eqb_spec k 0), (Z.eqb_spec k (WIDTH - 1)),
      (Z.eqb_spec (WIDTH - 1) 0), (Z.eqb_spec (WIDTH - 1) (HEIGHT - 1));
      simpl; done || lia.
  - unfold check_collision. simpl.
    destruct (Z.leb_spec k 0); [lia|]. simpl.
    rewrite (Z.geb_leb (WIDTH - 1)), Z.leb_refl.
    by rewrite !orb_true_r.
Qed.

(** ** [erase_old_snake] and [draw_snake] on the screen *)

(** The loop prints one character per segment, slot after slot. *)
Lemma snake_cells_loop_spec (c : ascii) (n : nat) :
  forall (k : nat) (snake : list Point),
    (k + n <= length snake)%nat ->
    Z.of_nat (k + n) <= Int.MAX ->
    (forall (i : nat) (p : Point),
       (k <= i < k + n)%nat -> snake !! i = Some p ->
       Int.MIN <= x p < Int.MAX /\ Int.MIN <= y p < Int.MAX) ->
    snake_cells_loop c n (Z.of_nat k) snake =
    Some (map (fun p => At (x p + 1) (y p + 1) c) (take n (drop k snake))).
Proof.
  induction n as [|n IH]; intros k snake Hcap Hmax Hrange; [done|].
  simpl. rewrite array_get_nat.
  destruct (lookup_lt_is_Some_2 snake k) as [p Hp]; [lia|].
  rewrite Hp. simpl.
  destruct (Hrange k p) as [Hx Hy]; [lia|done|].
  rewrite (add_Some (x p)), (add_Some (y p)) by int_lia. simpl.
  rewrite add_Some by int_lia. simpl.
  replace (Z.of_nat k + 1) with (Z.of_nat (S k)) by lia.
  rewrite IH; [|lia|lia|intros i q Hi; apply Hrange; lia]. simpl.
  rewrite (drop_S snake p k Hp). done.
Qed.

(** Printing one character at the address of every point of a list leaves
    that character at those addresses and nothing else changed. *)
Lemma show_points (c : ascii) (l : list Point) :
  forall (scr : Screen) (rc : Z * Z),
    show (map (fun p => At (x p + 1) (y p + 1) c) l) scr rc =
    if decide (rc ∈ (fun p => (x p + 1, y p + 1)) <$> l) then c else scr rc.
Proof.
  unfold show. induction l as [|q l IH]; intros scr rc.
  - done.
  - rewrite fmap_cons. cbn [map foldl]. rewrite IH. cbn [put].
    destruct (decide (rc ∈ (fun p => (x p + 1, y p + 1)) <$> l)) as [E|E].
    + rewrite decide_True; [done|]. by right.
    + destruct (decide (rc = (x q + 1, y q + 1))) as [->|Hne].
      * rewrite decide_True; [done|]. by left.
      * rewrite decide_False; [done|].
        intros [?|?]%elem_of_cons; done.
Qed.

Lemma snake_cell_take (snake : list Point) (L : Z) (rc : Z * Z) :
  0 <= L ->
  snake_cell snake L rc <->
  rc ∈ (fun p => (x p + 1, y p + 1)) <$> take (Z.to_nat L) (drop 0 snake).
Proof.
  intros HL. rewrite drop_0, list_elem_of_fmap. unfold snake_cell. split.
  - intros (k & p & Hk & Hget & ->). exists p. split; [done|].
    rewrite array_get_pos in Hget by lia.
    apply list_elem_of_lookup. exists (Z.to_nat k).
    rewrite lookup_take_lt by lia. done.
  - intros (p & -> & Hp). apply list_elem_of_lookup in Hp as [i Hi].
    pose proof (lookup_lt_Some _ _ _ Hi) as Hlt.
    rewrite length_take in Hlt.
    rewrite lookup_take_lt in Hi by lia.
    exists (Z.of_nat i), p. split; [lia|]. split; [|done].
    by rewrite array_get_nat.
Qed.

(** What is on the screen after [erase_old_snake] on one snake and [draw]
    on another. *)
Lemma erase_then_draw_screen
    (old new : list Point) (L L' : Z) (scr : Screen) :
  0 <= L <= Int.MAX -> L <= Z.of_nat (length old) ->
  0 <= L' <= Int.MAX -> L' <= Z.of_nat (length new) ->
  (forall k p, 0 <= k < L -> array_get old k = Some p ->
               Int.MIN <= x p < Int.MAX /\ Int.MIN <= y p < Int.MAX) ->
  (forall k p, 0 <= k < L' -> array_get new k = Some p ->
               Int.MIN <= x p < Int.MAX /\ Int.MIN <= y p < Int.MAX) ->
  exists e d,
    erase_old_snake old L = Some e /\
    draw L' new = Some d /\
    forall rc,
      (snake_cell new L' rc -> show (e ++ d) scr rc = "0"%char) /\
      (~ snake_cell new L' rc -> snake_cell old L rc ->
       show (e ++ d) scr rc = " "%char) /\
      (~ snake_cell new L' rc -> ~ snake_cell old L rc ->
       show (e ++ d) scr rc = scr rc).
Proof.
  intros HL Hcap HL' Hcap' Hr Hr'.
  unfold erase_old_snake, draw, draw_snake.
  pose proof (snake_cells_loop_spec " "%char (Z.to_nat L) 0 old) as He.
  pose proof (snake_cells_loop_spec "0"%char (Z.to_nat L') 0 new) as Hd.
  change (Z.of_nat 0) with 0 in He, Hd.
  rewrite He, Hd; [|lia|lia| |lia|lia|].
  2:{ intros i p Hi Hp. apply (Hr' (Z.of_nat i)); [lia|].
      by rewrite array_get_nat. }
  2:{ intros i p Hi Hp. apply (Hr (Z.of_nat i)); [lia|].
      by rewrite array_get_nat. }
  do 2 eexists. split; [reflexivity|]. split; [reflexivity|].
  intros rc. unfold show. rewrite foldl_app. fold (show
    (map (fun p => At (x p + 1) (y p + 1) " "%char)
         (take (Z.to_nat L) (drop 0 old))) scr).
  match goal with
  | |- context [foldl put ?s ?l] => change (foldl put s l) with (show l s)
  end.
  rewrite !show_points.
  rewrite (snake_cell_take new L' rc), (snake_cell_take old L rc) by lia.
  repeat case_decide; tauto.
Qed.

(** X18. [erase_old_snake] on one snake followed by [draw] on another
    leaves '0' on every cell of the second snake, a blank on the cells of
    the first that the second does not cover, and every other cell of the
    screen as it was (a segment at (x, y) is printed at row x+1, column
    y+1). *)
Theorem erase_then_draw_shows_the_new_snake
    (old new : list Point) (L L' : Z) (scr : Screen) :
  0 <= L <= Int.MAX -> L <= Z.of_nat (length old) ->
  0 <= L' <= Int.MAX -> L' <= Z.of_nat (length new) ->
  (forall k p, 0 <= k < L -> array_get old k = Some p ->
               Int.MIN <= x p < Int.MAX /\ Int.MIN <= y p < Int.MAX) ->
  (forall k p, 0 <= k < L' -> array_get new k = Some p ->
               Int.MIN <= x p < Int.MAX /\ Int.MIN <= y p < Int.MAX) ->
  exists e d,
    erase_old_snake old L = Some e /\
    draw L' new = Some d /\
    forall rc,
      (snake_cell new L' rc -> show (e ++ d) scr rc = "0"%char) /\
      (~ snake_cell new L' rc -> snake_cell old L rc ->
       show (e ++ d) scr rc = " "%char) /\
      (~ snake_cell new L' rc -> ~ snake_cell old L rc ->
       show (e ++ d) scr rc = scr rc).
Proof. exact (erase_then_draw_screen old new L L' scr). Qed.

(** X19. The redraw of a tick that moves without growing: after
    [erase_old_snake] on the snake, [move_snake] and [draw] on the moved
    snake, the cell the head stepped on shows '0', so do the cells of the
    old segments 1 to L-1, the cell of the old tail is blank unless the
    moved snake covers it, and no other cell of the screen has changed. *)
Theorem tick_redraw_moves_the_snake
    (snake : list Point) (L flag : Z) (hd : Point) (scr : Screen) :
  1 <= L <= Int.MAX ->
  L < Z.of_nat (length snake) ->
  array_get snake (L - 1) = Some hd ->
  (forall k p, 0 <= k < L -> array_get snake k = Some p ->
               Int.MIN < x p < Int.MAX - 1 /\ Int.MIN < y p < Int.MAX - 1) ->
  1 <= flag <= 4 ->
  exists snake' e d,
    erase_old_snake snake L = Some e /\
    move_snake snake L flag = Some snake' /\
    draw L snake' = Some d /\
    show (e ++ d) scr (x (spec_offset flag hd) + 1, y (spec_offset flag hd) + 1)
      = "0"%char /\
    (forall k p, 1 <= k <= L - 1 -> array_get snake k = Some p ->
                 show (e ++ d) scr (x p + 1, y p + 1) = "0"%char) /\
    (forall tl, array_get snake 0 = Some tl ->
                ~ snake_cell snake' L (x tl + 1, y tl + 1) ->
                show (e ++ d) scr (x tl + 1, y tl + 1) = " "%char) /\
    (forall rc, ~ snake_cell snake L rc ->
                rc <> (x (spec_offset flag hd) + 1, y (spec_offset flag hd) + 1) ->
                show (e ++ d) scr rc = scr rc).
Proof.
  intros HL Hcap Hhd Hrange Hflag.
  destruct (Hrange (L - 1) hd) as [Hx Hy]; [lia|done|].
  destruct (move_snake_run snake L flag hd)
    as (s & Hmove & Hlen & Hshift & Hhead & _); [lia|done|done|lia|lia|done|].
  assert (forall k p, 0 <= k < L -> array_get s k = Some p ->
            Int.MIN <= x p < Int.MAX /\ Int.MIN <= y p < Int.MAX) as Hrange'.
  { intros k p Hk Hp. destruct (Z.eq_dec k (L - 1)) as [->|Hne].
    - rewrite Hhead in Hp. injection Hp as <-. unfold spec_offset.
      repeat match goal with
             | |- context [Z.eqb ?u ?v] => destruct (Z.eqb u v)
             end; simpl; int_lia.
    - rewrite Hshift in Hp by lia.
      destruct (Hrange (k + 1) p); [lia|done|int_lia]. }
  destruct (erase_then_draw_screen snake s L L scr)
    as (e & d & He & Hd & Hscr); [lia|lia|lia|lia| |done|].
  { intros k p Hk Hp. destruct (Hrange k p); [done|done|int_lia]. }
  exists s, e, d. split; [done|]. split; [done|]. split; [done|].
  assert (forall rc, snake_cell s L rc <->
            rc = (x (spec_offset flag hd) + 1, y (spec_offset flag hd) + 1) \/
            exists k p, 1 <= k <= L - 1 /\ array_get snake k = Some p /\
                        rc = (x p + 1, y p + 1)) as Hcells.
  { intros rc. unfold snake_cell. split.
    - intros (k & p & Hk & Hp & ->). destruct (Z.eq_dec k (L - 1)) as [->|Hne].
      + rewrite Hhead in Hp. injection Hp as <-. by left.
      + rewrite Hshift in Hp by lia. right. exists (k + 1), p.
        split; [lia|done].
    - intros [->|(k & p & Hk & Hp & ->)].
      + exists (L - 1), (spec_offset flag hd). split; [lia|done].
      + exists (k - 1), p. split; [lia|]. split; [|done].
        rewrite Hshift by lia. by replace (k - 1 + 1) with k by lia. }
  split; [|split; [|split]].
  - apply Hscr, Hcells. by left.
  - intros k p Hk Hp. apply Hscr, Hcells. right. by exists k, p.
  - intros tl Htl Hfree. apply Hscr; [done|].
    exists 0, tl. split; [lia|done].
  - intros rc Hold Hne. apply Hscr; [|done].
    rewrite Hcells. intros [->|(k & p & Hk & Hp & ->)]; [done|].
    apply Hold. exists k, p. split; [lia|done].
Qed.

(** What [draw] prints for a snake lying inside its array. *)
Lemma draw_run (snake : list Point) (L : Z) :
  0 <= L <= Int.MAX -> L <= Z.of_nat (length snake) ->
  (forall k p, 0 <= k < L -> array_get snake k = Some p ->
               Int.MIN <= x p < Int.MAX /\ Int.MIN <= y p < Int.MAX) ->
  draw L snake =
  Some (map (fun p => At (x p + 1) (y p + 1) "0"%char)
            (take (Z.to_nat L) (drop 0 snake))).
Proof.
  intros HL Hcap Hr. unfold draw, draw_snake.
  pose proof (snake_cells_loop_spec "0"%char (Z.to_nat L) 0 snake) as Hd.
  change (Z.of_nat 0) with 0 in Hd. apply Hd; [lia|lia|].
  intros i p Hi Hp. apply (Hr (Z.of_nat i)); [lia|].
  by rewrite array_get_nat.
Qed.

(** X21. [erase_old_fruit] on the old fruit, [draw_fruit] on the new one,
    then [draw] on the snake, the order in which [grow_snake] and [main]
    call them (the score line printed in between is not part of this
    statement).  The cell of the new fruit shows '*' when no segment of the
    snake lies on it, and '0' when one does: a fruit put under the snake is
    not visible. *)
Theorem fruit_under_the_snake_is_hidden
    (snake : list Point) (L fruitx fruity fruitx' fruity' : Z) (scr : Screen) :
  0 <= L <= Int.MAX -> L <= Z.of_nat (length snake) ->
  (forall k p, 0 <= k < L -> array_get snake k = Some p ->
               Int.MIN <= x p < Int.MAX /\ Int.MIN <= y p < Int.MAX) ->
  Int.MIN <= fruitx < Int.MAX -> Int.MIN <= fruity < Int.MAX ->
  Int.MIN <= fruitx' < Int.MAX -> Int.MIN <= fruity' < Int.MAX ->
  exists ef df d,
    erase_old_fruit fruitx fruity = Some ef /\
    draw_fruit fruitx' fruity' = Some df /\
    draw L snake = Some d /\
    (snake_cell snake L (fruitx' + 1, fruity' + 1) ->
     show (ef ++ df ++ d) scr (fruitx' + 1, fruity' + 1) = "0"%char) /\
    (~ snake_cell snake L (fruitx' + 1, fruity' + 1) ->
     show (ef ++ df ++ d) scr (fruitx' + 1, fruity' + 1) = "*"%char).
Proof.
  intros HL Hcap Hr Hfx Hfy Hfx' Hfy'.
  unfold erase_old_fruit, draw_fruit.
  rewrite (add_Some fruitx), (add_Some fruity), (add_Some fruitx'),
    (add_Some fruity') by int_lia. simpl.
  rewrite draw_run by done.
  do 3 eexists. split; [reflexivity|]. split; [reflexivity|].
  split; [reflexivity|].
  unfold show. rewrite !foldl_app.
  match goal with
  | |- context [foldl put ?s (map ?f ?l)] =>
      change (foldl put s (map f l)) with (show (map f l) s)
  end.
  rewrite show_points, (snake_cell_take snake L) by lia.
  split; intros Hc.
  - by rewrite decide_True.
  - rewrite decide_False by done. simpl. by rewrite decide_True.
Qed.

End Snake.

(** * The board of the specification: WIDTH 20, HEIGHT 10 *)

(** C8, the code on the board 20 x 10.  [main] stores WIDTH/2 in the row
    [x] of the first segment and HEIGHT/2 in its column [y].  With 20
    columns and 10 rows (WIDTH 20, HEIGHT 10) the snake of length 1 and
    score 0 starts at (10,5), which is not the centre (5,10) but a cell of
    the wall: [check_collision] reports 2 on the start itself, and the tick
    of the first Right arrow moves the head to (10,6) and ends the game.
    With 20 rows and 10 columns (WIDTH 10, HEIGHT 20), where the centre is
    (10,5), the snake starts at (5,10), a cell of the wall again. *)
Theorem main_starts_off_center_on_the_wall
    (LENGTH_SNAKE r1 r2 r3 r4 : Z) :
  2 <= LENGTH_SNAKE -> rand_ok r1 -> rand_ok r2 ->
  (exists g,
     main_init 20 10 LENGTH_SNAKE r1 r2 = Some (g, 0) /\
     g_length g = 1 /\ g_score g = 0 /\
     array_get (g_snake g) (g_length g - 1) = Some (mkPoint 10 5) /\
     board_center 20 10 = mkPoint 5 10 /\
     check_collision 20 10 (g_snake g) (g_length g) = Some 2 /\
     input 0 (arrow_bytes Right) = (4, []) /\
     exists ns g',
       logic 20 10 4 g r3 r4 = Some (ns, g') /\
       array_get (g_snake g') (g_length g' - 1) = Some (mkPoint 10 6) /\
       g_gameover g' = 2) /\
  (exists g,
     main_init 10 20 LENGTH_SNAKE r1 r2 = Some (g, 0) /\
     array_get (g_snake g) (g_length g - 1) = Some (mkPoint 5 10) /\
     board_center 10 20 = mkPoint 10 5 /\
     check_collision 10 20 (g_snake g) (g_length g) = Some 2).
Proof.
  intros Hcap Hr1 Hr2. split.
  - rewrite (main_init_run 20 10 LENGTH_SNAKE r1 r2) by (done || int_lia).
    change (Z.quot 20 2) with 10. change (Z.quot 10 2) with 5.
    eexists. split; [reflexivity|]. simpl.
    set (a := <[0%nat:={| x := 10; y := 5 |}]>
                (replicate (Z.to_nat LENGTH_SNAKE) {| x := 0; y := 0 |})).
    assert (length a = Z.to_nat LENGTH_SNAKE) as Hlen
      by (unfold a; by rewrite length_insert, length_replicate).
    assert (array_get a 0 = Some (mkPoint 10 5)) as Hhd.
    { rewrite array_get_pos by lia. apply list_lookup_insert_eq.
      rewrite length_replicate. lia. }
    do 2 (split; [done|]). split; [exact Hhd|]. split; [reflexivity|].
    split.
    { unfold check_collision. change (Int.sub 1 1) with (Some 0). simpl.
      rewrite Hhd. reflexivity. }
    split; [done|].
    destruct (move_snake_run a 1 4 (mkPoint 10 5))
      as (s & Hmove & _ & _ & Hhead & _); simpl; try int_lia; [done|].
    change (1 - 1) with 0 in Hhead.
    unfold logic. simpl. rewrite Hmove. simpl.
    unfold check_collision. change (Int.sub 1 1) with (Some 0). simpl.
    rewrite Hhead. simpl.
    do 2 eexists. split; [reflexivity|]. simpl. done.
  - rewrite (main_init_run 10 20 LENGTH_SNAKE r1 r2) by (done || int_lia).
    change (Z.quot 20 2) with 10. change (Z.quot 10 2) with 5.
    eexists. split; [reflexivity|]. simpl.
    assert (array_get
              (<[0%nat:={| x := 5; y := 10 |}]>
                 (replicate (Z.to_nat LENGTH_SNAKE) {| x := 0; y := 0 |})) 0
            = Some (mkPoint 5 10)) as Hhd.
    { rewrite array_get_pos by lia. apply list_lookup_insert_eq.
      rewrite length_replicate. lia. }
    split; [exact Hhd|]. split; [reflexivity|].
    unfold check_collision. change (Int.sub 1 1) with (Some 0). simpl.
    rewrite Hhd. reflexivity.
Qed.

(** * Concrete runs *)

(** C1 at a snake of three segments heading Right in an array of four. *)
Lemma move_snake_shifts_and_offsets_head_witness :
  exists snake',
    move_snake [mkPoint 5 5; mkPoint 5 6; mkPoint 5 7; mkPoint 0 0] 3 4
      = Some snake' /\
    length snake' = length [mkPoint 5 5; mkPoint 5 6; mkPoint 5 7; mkPoint 0 0] /\
    (forall i, 0 <= i <= 3 - 2 ->
       array_get snake' i
       = array_get [mkPoint 5 5; mkPoint 5 6; mkPoint 5 7; mkPoint 0 0] (i + 1)) /\
    array_get snake' (3 - 1) = Some (spec_offset 4 (mkPoint 5 7)) /\
    (forall i, 3 <= i ->
       array_get snake' i
       = array_get [mkPoint 5 5; mkPoint 5 6; mkPoint 5 7; mkPoint 0 0] i).
Proof.
  apply (move_snake_shifts_and_offsets_head
           [mkPoint 5 5; mkPoint 5 6; mkPoint 5 7; mkPoint 0 0] 3 4 (mkPoint 5 7));
    simpl; run.
Defined.

(** C2 at a snake whose head has come back onto its tail, on the board
    20 x 10. *)
Lemma check_collision_classifies_witness :
  let hd := mkPoint 5 5 in
  let wall := x hd <= 0 \/ x hd >= 10 - 1 \/ y hd <= 0 \/ y hd >= 20 - 1 in
  let self :=
    exists i, 0 <= i <= 3 - 2 /\
              array_get [mkPoint 5 5; mkPoint 5 6; mkPoint 5 5] i = Some hd in
  exists c,
    check_collision 20 10 [mkPoint 5 5; mkPoint 5 6; mkPoint 5 5] 3 = Some c /\
    (c = 0 \/ c = 1 \/ c = 2) /\
    (c = 2 <-> wall) /\
    (c = 1 <-> ~ wall /\ self) /\
    (c = 0 <-> ~ wall /\ ~ self).
Proof.
  apply (check_collision_classifies 20 10
           [mkPoint 5 5; mkPoint 5 6; mkPoint 5 5] 3 (mkPoint 5 5));
    simpl; run.
Defined.

(** C3, amended, on a square board 20 x 20. *)
Lemma grow_snake_length_score_fruit_witness :
  let g := mkGame [mkPoint 5 5; mkPoint 0 0] 1 0 0 5 5 in
  exists g',
    grow_snake 20 20 g 4 4 = Some g' /\
    g_length g' = g_length g + 1 /\
    g_score g' = g_score g + 5 /\
    1 <= g_fruitx g' /\ 1 <= g_fruity g' /\
    (20 = 20 -> interior 20 20 (g_fruitx g') (g_fruity g')).
Proof.
  apply (grow_snake_length_score_fruit 20 20
           (mkGame [mkPoint 5 5; mkPoint 0 0] 1 0 0 5 5) 4 4);
    simpl; run.
Defined.

(** C3 as stated fails on the board 20 x 10: the snake of one segment at
    (5,5) has just eaten; when [rand()] returns 4 and 4 the new fruit is put
    at (5,5), under the snake; when it returns 14 and 4 the new fruit is put
    in row 15, outside the rows 1..8 of the interior. *)
Lemma grow_snake_fruit_on_snake_or_outside :
  let g := mkGame [mkPoint 5 5; mkPoint 0 0] 1 0 0 5 5 in
  (exists g', grow_snake 20 10 g 4 4 = Some g' /\ ~ fruit_off_snake g') /\
  (exists g', grow_snake 20 10 g 14 4 = Some g' /\
              ~ interior 20 10 (g_fruitx g') (g_fruity g')).
Proof.
  split.
  - eexists. split; [reflexivity|].
    intros H. apply (H 0 (mkPoint 5 5)); simpl; run.
  - eexists. split; [reflexivity|].
    intros [[_ H] _]. vm_compute in H. by apply H.
Qed.

(** C5, amended, at a snake of three segments. *)
Lemma grow_snake_duplicates_tail_witness :
  let g := mkGame [mkPoint 5 5; mkPoint 5 6; mkPoint 5 7; mkPoint 0 0] 3 0 10 5 7 in
  exists g',
    grow_snake 20 10 g 4 4 = Some g' /\
    g_length g' = g_length g + 1 /\
    array_get (g_snake g') 0 = array_get (g_snake g) 0 /\
    (forall i, 0 <= i <= g_length g - 1 ->
               array_get (g_snake g') (i + 1) = array_get (g_snake g) i) /\
    (forall i, g_length g < i ->
               array_get (g_snake g') i = array_get (g_snake g) i).
Proof.
  apply (grow_snake_duplicates_tail 20 10
           (mkGame [mkPoint 5 5; mkPoint 5 6; mkPoint 5 7; mkPoint 0 0] 3 0 10 5 7)
           4 4);
    simpl; run.
Defined.

(** C5 as stated fails at a snake of three segments, tail (5,5) and head
    (5,7): after the splice the segment at index 0 is (5,5), the old tail,
    and not the old head. *)
Lemma grow_snake_slot_0_is_not_the_old_head :
  let g := mkGame [mkPoint 5 5; mkPoint 5 6; mkPoint 5 7; mkPoint 0 0] 3 0 10 5 7 in
  exists g',
    grow_snake 20 10 g 4 4 = Some g' /\
    array_get (g_snake g) (g_length g - 1) = Some (mkPoint 5 7) /\
    array_get (g_snake g') 0 = Some (mkPoint 5 5) /\
    array_get (g_snake g') 0 <> array_get (g_snake g) (g_length g - 1).
Proof.
  eexists. split; [reflexivity|]. simpl.
  split; [reflexivity|]. split; [reflexivity|]. discriminate.
Qed.

(** C4 at a tick that eats the fruit with 95 points, on a board 20 x 20:
    the score tested is 100. *)
Lemma logic_wins_at_exactly_100_witness :
  let g := mkGame [mkPoint 5 5; mkPoint 5 6; mkPoint 5 7; mkPoint 0 0; mkPoint 0 0]
                  3 0 95 5 8 in
  let hd := mkPoint 5 8 in
  let eats := (x hd =? g_fruitx g) && (y hd =? g_fruity g) in
  exists g',
    logic 20 20 4 g 4 4 = Some (logic_sleep (g_score g), g') /\
    g_score g' = (if eats then g_score g + 5 else g_score g) /\
    g_gameover g' = (if g_score g' =? 100 then -1 else 0).
Proof.
  apply (logic_wins_at_exactly_100 20 20 4
           (mkGame [mkPoint 5 5; mkPoint 5 6; mkPoint 5 7; mkPoint 0 0; mkPoint 0 0]
                   3 0 95 5 8)
           4 4
           [mkPoint 5 6; mkPoint 5 7; mkPoint 5 8; mkPoint 0 0; mkPoint 0 0]
           (mkPoint 5 8));
    simpl; run.
Defined.

(** C8 with an array of 100 points. *)
Lemma main_starts_off_center_on_the_wall_witness :
  (exists g,
     main_init 20 10 100 7 3 = Some (g, 0) /\
     g_length g = 1 /\ g_score g = 0 /\
     array_get (g_snake g) (g_length g - 1) = Some (mkPoint 10 5) /\
     board_center 20 10 = mkPoint 5 10 /\
     check_collision 20 10 (g_snake g) (g_length g) = Some 2 /\
     input 0 (arrow_bytes Right) = (4, []) /\
     exists ns g',
       logic 20 10 4 g 0 0 = Some (ns, g') /\
       array_get (g_snake g') (g_length g' - 1) = Some (mkPoint 10 6) /\
       g_gameover g' = 2) /\
  (exists g,
     main_init 10 20 100 7 3 = Some (g, 0) /\
     array_get (g_snake g) (g_length g - 1) = Some (mkPoint 5 10) /\
     board_center 10 20 = mkPoint 10 5 /\
     check_collision 10 20 (g_snake g) (g_length g) = Some 2).
Proof.
  apply (main_starts_off_center_on_the_wall 100 7 3 0 0); run.
Defined.

(** C10 at the state after one tick that eats, on a board 20 x 20 with an
    array of three points: the first fruit is at (10,11), the snake starts
    at (10,10) and the Right arrow is pending. *)
Lemma reachable_score_multiple_of_5_up_to_100_witness :
  let s := (mkGame [mkPoint 10 11; mkPoint 10 11; mkPoint 0 0] 2 0 5 1 1, 4) in
  score_in_steps_of_5 (g_score (fst s)) /\
  (g_score (fst s) =? 100) = (g_score (fst s) >=? 100).
Proof.
  apply (reachable_score_multiple_of_5_up_to_100 20 20 3
           (mkGame [mkPoint 10 11; mkPoint 10 11; mkPoint 0 0] 2 0 5 1 1, 4)).
  apply (reach_step 20 20 3
           (mkGame [mkPoint 10 10; mkPoint 0 0; mkPoint 0 0] 1 0 0 10 11, 0)).
  - apply (reach_init 20 20 3 9 10); run.
  - apply (main_tick 20 20 _ 0 (arrow_bytes Right) 0 0 4 [] 250000000); run.
Defined.

(** * Concrete runs of the further properties *)

(** X4 at a snake of three segments in an array of three. *)
Lemma move_snake_full_array_out_of_bounds_witness :
  move_snake [mkPoint 5 5; mkPoint 5 6; mkPoint 5 7] 3 4 = None.
Proof.
  apply (move_snake_full_array_out_of_bounds
           [mkPoint 5 5; mkPoint 5 6; mkPoint 5 7] 3 4); simpl; run.
Defined.

(** X5 at flag 7. *)
Lemma move_snake_without_direction_witness :
  exists snake',
    move_snake [mkPoint 5 5; mkPoint 5 6; mkPoint 9 9] 2 7 = Some snake' /\
    length snake' = length [mkPoint 5 5; mkPoint 5 6; mkPoint 9 9] /\
    (forall i, 0 <= i <= 2 - 1 ->
       array_get snake' i
       = array_get [mkPoint 5 5; mkPoint 5 6; mkPoint 9 9] (i + 1)) /\
    (forall i, 2 <= i ->
       array_get snake' i = array_get [mkPoint 5 5; mkPoint 5 6; mkPoint 9 9] i).
Proof.
  apply (move_snake_without_direction
           [mkPoint 5 5; mkPoint 5 6; mkPoint 9 9] 2 7); simpl; run.
Defined.

(** X6 at a snake of two segments in an array of two. *)
Lemma grow_snake_full_array_out_of_bounds_witness :
  grow_snake 20 20 (mkGame [mkPoint 5 5; mkPoint 5 6] 2 0 5 5 6) 4 4 = None.
Proof.
  apply (grow_snake_full_array_out_of_bounds 20 20
           (mkGame [mkPoint 5 5; mkPoint 5 6] 2 0 5 5 6) 4 4); simpl; run.
Defined.

(** X7 at length 0. *)
Lemma check_collision_defined_iff_witness :
  (is_Some (check_collision 20 20 [mkPoint 5 5] 0)
   <-> 1 <= 0 <= Z.of_nat (length [mkPoint 5 5])) /\
  (forall c, check_collision 20 20 [mkPoint 5 5] 0 = Some c ->
             c = 0 \/ c = 1 \/ c = 2).
Proof.
  apply (check_collision_defined_iff 20 20 [mkPoint 5 5] 0); run.
Defined.

(** X8 at a snake of four segments curled up, turning Left onto the cell
    its tail leaves. *)
Lemma move_then_check_collision_witness :
  let snake := [mkPoint 5 5; mkPoint 5 6; mkPoint 6 6; mkPoint 6 5; mkPoint 0 0] in
  let hd' := spec_offset 3 (mkPoint 6 5) in
  let body := exists i, 1 <= i <= 4 - 2 /\ array_get snake i = Some hd' in
  exists snake' c,
    move_snake snake 4 3 = Some snake' /\
    check_collision 20 20 snake' 4 = Some c /\
    (c = 2 <-> wall 20 20 hd') /\
    (c = 1 <-> ~ wall 20 20 hd' /\ body) /\
    (c = 0 <-> ~ wall 20 20 hd' /\ ~ body).
Proof.
  apply (move_then_check_collision 20 20
           [mkPoint 5 5; mkPoint 5 6; mkPoint 6 6; mkPoint 6 5; mkPoint 0 0]
           4 3 (mkPoint 6 5)); simpl; run.
Defined.

(** X9 at a tick that eats. *)
Lemma logic_changes_witness :
  let g := mkGame [mkPoint 5 6; mkPoint 5 7; mkPoint 0 0; mkPoint 0 0] 2 0 5 5 8 in
  let g' := mkGame [mkPoint 5 7; mkPoint 5 7; mkPoint 5 8; mkPoint 0 0] 3 0 10 5 5 in
  length (g_snake g') = length (g_snake g) /\
  (4 <> 0 ->
   g_gameover g' = -1 \/ g_gameover g' = 0 \/
   g_gameover g' = 1 \/ g_gameover g' = 2) /\
  ((g_length g' = g_length g /\ g_score g' = g_score g /\
    g_fruitx g' = g_fruitx g /\ g_fruity g' = g_fruity g) \/
   (g_length g' = g_length g + 1 /\ g_score g' = g_score g + 5 /\
    fruits 20 20 4 4 = Some (g_fruitx g', g_fruity g') /\
    (g_gameover g' = 0 \/ g_gameover g' = -1))).
Proof.
  apply (logic_changes 20 20 4
           (mkGame [mkPoint 5 6; mkPoint 5 7; mkPoint 0 0; mkPoint 0 0] 2 0 5 5 8)
           (mkGame [mkPoint 5 7; mkPoint 5 7; mkPoint 5 8; mkPoint 0 0] 3 0 10 5 5)
           4 4 250000000); run.
Defined.

(** X10 at the state after one tick that eats, on a board 20 x 20 with an
    array of three points. *)
Lemma reachable_length_follows_score_witness :
  let s := (mkGame [mkPoint 10 11; mkPoint 10 11; mkPoint 0 0] 2 0 5 1 1, 4) in
  g_score (fst s) = 5 * (g_length (fst s) - 1) /\
  1 <= g_length (fst s) <= 21 /\
  length (g_snake (fst s)) = Z.to_nat 3 /\
  0 <= snd s <= 4.
Proof.
  apply (reachable_length_follows_score 20 20 3
           (mkGame [mkPoint 10 11; mkPoint 10 11; mkPoint 0 0] 2 0 5 1 1, 4)).
  apply (reach_step 20 20 3
           (mkGame [mkPoint 10 10; mkPoint 0 0; mkPoint 0 0] 1 0 0 10 11, 0)).
  - apply (reach_init 20 20 3 9 10); run.
  - apply (main_tick 20 20 _ 0 (arrow_bytes Right) 0 0 4 [] 250000000); run.
Defined.

(** X11 at the same state. *)
Lemma reachable_head_inside_walls_witness :
  let g := mkGame [mkPoint 10 11; mkPoint 10 11; mkPoint 0 0] 2 0 5 1 1 in
  exists hd,
    array_get (g_snake g) (g_length g - 1) = Some hd /\
    1 <= x hd <= 20 - 2 /\ 1 <= y hd <= 20 - 2.
Proof.
  apply (reachable_head_inside_walls 20 20 3
           (mkGame [mkPoint 10 11; mkPoint 10 11; mkPoint 0 0] 2 0 5 1 1) 4);
    [|run|run].
  apply (reach_step 20 20 3
           (mkGame [mkPoint 10 10; mkPoint 0 0; mkPoint 0 0] 1 0 0 10 11, 0)).
  - apply (reach_init 20 20 3 9 10); run.
  - apply (main_tick 20 20 _ 0 (arrow_bytes Right) 0 0 4 [] 250000000); run.
Defined.

(** X12 at the end of a game on the board 20 x 10, where the first move
    hits the wall. *)
Lemma main_exit_message_witness :
  let s := (mkGame [mkPoint 10 6; mkPoint 0 0; mkPoint 0 0] 1 2 0 10 5, 4) in
  (end_message (g_gameover (fst s))
   = [String "027" "[0;32m"; "You are a winner" +:+ String "010" ""]
   <-> g_score (fst s) = 100) /\
  (end_message (g_gameover (fst s)) = ["Game Over" +:+ String "010" ""]
   <-> snd s = -1) /\
  (snd s <> -1 -> g_score (fst s) <> 100 ->
   g_gameover (fst s) = 1 \/ g_gameover (fst s) = 2).
Proof.
  apply (main_exit_message 20 10 3
           (mkGame [mkPoint 10 6; mkPoint 0 0; mkPoint 0 0] 1 2 0 10 5, 4)).
  apply exit_gameover; [|run].
  apply (reach_step 20 10 3
           (mkGame [mkPoint 10 5; mkPoint 0 0; mkPoint 0 0] 1 0 0 10 5, 0)).
  - apply (reach_init 20 10 3 9 4); run.
  - apply (main_tick 20 10 _ 0 (arrow_bytes Right) 0 0 4 [] 250000000); run.
Defined.

(** X13 on the board 20 x 10 at the pair (15, 5). *)
Lemma fruits_reaches_exactly_witness :
  (exists r1 r2, rand_ok r1 /\ rand_ok r2 /\ fruits 20 10 r1 r2 = Some (15, 5))
  <-> 1 <= 15 <= 20 - 2 /\ 1 <= 5 <= 10 - 2.
Proof. apply (fruits_reaches_exactly 20 10 15 5); run. Defined.

(** X14 on a board of width 2. *)
Lemma main_init_defined_iff_witness :
  is_Some (main_init 2 10 30 7 3) <-> 2 < 2 /\ 2 < 10 /\ 1 <= 30.
Proof. apply (main_init_defined_iff 2 10 30 7 3); run. Defined.

(** X15 on the board 20 x 10, line 9, column 5. *)
Lemma draw_border_grid_witness :
  length (draw_border 20 10) = Z.to_nat (10 * (20 + 1)) /\
  draw_border 20 10 !! Z.to_nat (9 * (20 + 1) + 20) = Some "010"%char /\
  (draw_border 20 10 !! Z.to_nat (9 * (20 + 1) + 5) = Some "#"%char
   <-> 9 = 0 \/ 9 = 20 - 1 \/ 5 = 0 \/ 5 = 10 - 1) /\
  (draw_border 20 10 !! Z.to_nat (9 * (20 + 1) + 5) = Some " "%char
   <-> ~ (9 = 0 \/ 9 = 20 - 1 \/ 5 = 0 \/ 5 = 10 - 1)).
Proof. apply (draw_border_grid 20 10 9 5); run. Defined.

(** X16 on a board 20 x 20, last line. *)
Lemma draw_border_is_the_wall_when_square_witness :
  (draw_border 20 20 !! Z.to_nat (19 * (20 + 1) + 5) = Some "#"%char
   <-> check_collision 20 20 [mkPoint 19 5] 1 = Some 2) /\
  (draw_border 20 20 !! Z.to_nat (19 * (20 + 1) + 5) = Some " "%char
   <-> check_collision 20 20 [mkPoint 19 5] 1 = Some 0).
Proof. apply (draw_border_is_the_wall_when_square 20 20 19 5); run. Defined.

(** X17 on the board 20 x 10, column 5. *)
Lemma draw_border_misses_the_bottom_wall_when_wide_witness :
  draw_border 20 10 !! Z.to_nat ((10 - 1) * (20 + 1) + 5) = Some " "%char /\
  check_collision 20 10 [mkPoint (10 - 1) 5] 1 = Some 2.
Proof. apply (draw_border_misses_the_bottom_wall_when_wide 20 10 5); run. Defined.

Ltac segments :=
  let k := fresh "k" in
  let p := fresh "p" in
  let Hk := fresh "Hk" in
  let Hp := fresh "Hp" in
  intros k p Hk Hp;
  assert (k = 0 \/ k = 1 \/ k = 2) as [-> | [-> | ->]] by lia;
  injection Hp as <-; simpl; int_lia.

(** X18 at a snake of three segments and the same snake moved Right. *)
Lemma erase_then_draw_shows_the_new_snake_witness :
  let old := [mkPoint 5 5; mkPoint 5 6; mkPoint 5 7; mkPoint 0 0] in
  let new := [mkPoint 5 6; mkPoint 5 7; mkPoint 5 8; mkPoint 0 0] in
  let scr : Screen := fun _ => "."%char in
  exists e d,
    erase_old_snake old 3 = Some e /\
    draw 3 new = Some d /\
    forall rc,
      (snake_cell new 3 rc -> show (e ++ d) scr rc = "0"%char) /\
      (~ snake_cell new 3 rc -> snake_cell old 3 rc ->
       show (e ++ d) scr rc = " "%char) /\
      (~ snake_cell new 3 rc -> ~ snake_cell old 3 rc ->
       show (e ++ d) scr rc = scr rc).
Proof.
  apply (erase_then_draw_shows_the_new_snake
           [mkPoint 5 5; mkPoint 5 6; mkPoint 5 7; mkPoint 0 0]
           [mkPoint 5 6; mkPoint 5 7; mkPoint 5 8; mkPoint 0 0]
           3 3 (fun _ => "."%char));
    first [ segments | simpl; run ].
Defined.

(** X19 at the same snake, moving Right. *)
Lemma tick_redraw_moves_the_snake_witness :
  let snake := [mkPoint 5 5; mkPoint 5 6; mkPoint 5 7; mkPoint 0 0] in
  let hd := mkPoint 5 7 in
  let scr : Screen := fun _ => "."%char in
  exists snake' e d,
    erase_old_snake snake 3 = Some e /\
    move_snake snake 3 4 = Some snake' /\
    draw 3 snake' = Some d /\
    show (e ++ d) scr (x (spec_offset 4 hd) + 1, y (spec_offset 4 hd) + 1)
      = "0"%char /\
    (forall k p, 1 <= k <= 3 - 1 -> array_get snake k = Some p ->
                 show (e ++ d) scr (x p + 1, y p + 1) = "0"%char) /\
    (forall tl, array_get snake 0 = Some tl ->
                ~ snake_cell snake' 3 (x tl + 1, y tl + 1) ->
                show (e ++ d) scr (x tl + 1, y tl + 1) = " "%char) /\
    (forall rc, ~ snake_cell snake 3 rc ->
                rc <> (x (spec_offset 4 hd) + 1, y (spec_offset 4 hd) + 1) ->
                show (e ++ d) scr rc = scr rc).
Proof.
  apply (tick_redraw_moves_the_snake
           [mkPoint 5 5; mkPoint 5 6; mkPoint 5 7; mkPoint 0 0] 3 4
           (mkPoint 5 7) (fun _ => "."%char));
    first [ segments | simpl; run ].
Defined.

(** X20 at the first iteration on a board 20 x 20 with an array of 21
    points, the Right arrow pending. *)
Lemma main_loop_defined_witness :
  let g := mkGame (mkPoint 10 10 :: replicate 20 (mkPoint 0 0)) 1 0 0 10 11 in
  1 <= g_length g <= 21 /\
  exists ns g',
    logic 20 20 (fst (input 0 (arrow_bytes Right))) g 0 0 = Some (ns, g') /\
    main_step 20 20 (g, 0) (g', fst (input 0 (arrow_bytes Right))) /\
    reachable 20 20 21 (g', fst (input 0 (arrow_bytes Right))).
Proof.
  apply (main_loop_defined 20 20 21
           (mkGame (mkPoint 10 10 :: replicate 20 (mkPoint 0 0)) 1 0 0 10 11)
           0 (arrow_bytes Right) 0 0); try run.
  apply (reach_init 20 20 21 9 10); run.
Defined.

(** X21 at a fruit put under the middle segment of a snake of three. *)
Lemma fruit_under_the_snake_is_hidden_witness :
  let snake := [mkPoint 5 6; mkPoint 5 7; mkPoint 5 8; mkPoint 0 0] in
  let scr : Screen := fun _ => "."%char in
  exists ef df d,
    erase_old_fruit 5 8 = Some ef /\
    draw_fruit 5 7 = Some df /\
    draw 3 snake = Some d /\
    (snake_cell snake 3 (5 + 1, 7 + 1) ->
     show (ef ++ df ++ d) scr (5 + 1, 7 + 1) = "0"%char) /\
    (~ snake_cell snake 3 (5 + 1, 7 + 1) ->
     show (ef ++ df ++ d) scr (5 + 1, 7 + 1) = "*"%char).
Proof.
  apply (fruit_under_the_snake_is_hidden
           [mkPoint 5 6; mkPoint 5 7; mkPoint 5 8; mkPoint 0 0] 3 5 8 5 7
           (fun _ => "."%char));
    first [ segments | simpl; run ].
Defined.
